(** * f1-insights: track segmentation, fastest-driver attribution and the
      telemetry / driver utilities

    Shallow embedding of
    - [Australian GP/Qualifying/track_breakdown/main.py] (the module-level
      segmentation loop, lines 41-80, and the attribution loop, lines 85-131),
    - [src/f1_insights/utils/telemetry_utils.py] ([analyze_slipstream]),
    - [src/f1_insights/utils/driver_utils.py] ([get_driver_info]).

    The scripts compute with numpy's float64.  The loops are embedded over
    an interface of numeric operations ([NumOps]); every structural theorem
    is proved for all implementations of the interface.  The interface is
    instantiated with IEEE-754 binary64 ([PrimFloat]), to run the code on
    concrete inputs, and with the real numbers, to say what holds when
    nothing is rounded. *)

From Stdlib Require Import ZArith Floats Reals Lra.
From stdpp Require Import base list strings gmap.

(** ** Python results *)

Inductive exn : Set :=
| ZeroDivisionError
| OverflowError.

Inductive result (A : Type) : Type :=
| Ok (a : A)
| Raise (e : exn).
Arguments Ok {A} a.
Arguments Raise {A} e.

(** ** Numeric interface

    [n_zero] is the Python int [0] the accumulators start from, [of_int] the
    conversion of a Python int operand, which fails ([None], Python's
    OverflowError) on an int too large for the number type, [n_ltb a b] is
    [a < b] and [n_leb a b] is [a <= b].  [n_isnan] tells a missing value
    (nan) and [n_inf] is the value pandas puts in its place when it looks for
    a minimum. *)

Class NumOps (num : Type) : Type := {
  n_zero : num;
  n_add : num -> num -> num;
  n_sub : num -> num -> num;
  n_mul : num -> num -> num;
  n_div : num -> num -> num;
  n_sqrt : num -> num;
  of_int : Z -> option num;
  n_ltb : num -> num -> bool;
  n_leb : num -> num -> bool;
  n_isnan : num -> bool;
  n_inf : num
}.

(** Python's [a >= b] and [a > b]. *)
Definition n_geb {num} `{NumOps num} (a b : num) : bool := n_leb b a.
Definition n_gtb {num} `{NumOps num} (a b : num) : bool := n_ltb b a.

(** ** Track segmentation (main.py, lines 36-80) *)

Section Segmentation.
Context {num : Type} `{NumOps num}.

(** A track point [(track_x[i], track_y[i])]. *)
Definition point : Type := num * num.

Definition origin : point := (n_zero, n_zero).

(** [x**2] *)
Definition sq (x : num) : num := n_mul x x.

(** [def distance(x1, y1, x2, y2)] (lines 37-38). *)
Definition distance (x1 y1 x2 y2 : num) : num :=
  n_sqrt (n_add (sq (n_sub x2 x1)) (sq (n_sub y2 y1))).

(** The four module-level variables the loop of lines 59-80 updates. *)
Record seg_state : Type := SegState {
  segments : list (list point);
  segment_points : list point;
  current_segment : list point;
  current_length : num
}.

(** Lines 44-45 and 56-57. *)
Definition seg_init : seg_state :=
  SegState [] [] [] n_zero.

(** Lines 48-50: the running sum of the consecutive distances. *)
Definition track_length_step (track : list point) (acc : num) (i : nat) : num :=
  let pt1 := nth (i - 1) track origin in
  let pt2 := nth i track origin in
  n_add acc (distance pt1.1 pt1.2 pt2.1 pt2.2).

Definition track_length (track : list point) : num :=
  fold_left (track_length_step track) (seq 1 (length track - 1)) n_zero.

(** Lines 63-80: one iteration, given [pt1], [pt2] and whether
    [i == len(track_x) - 1]. *)
Definition loop_body (target : num) (pt1 pt2 : point) (is_last : bool)
    (st : seg_state) : seg_state :=
  let segment_length := distance pt1.1 pt1.2 pt2.1 pt2.2 in
  let cs := match current_segment st with
            | [] => [pt1]
            | _ :: _ => current_segment st
            end in
  let cs := cs ++ [pt2] in
  let cl := n_add (current_length st) segment_length in
  if n_geb cl target || is_last then
    if bool_decide (2 <= length cs) then
      let mid_idx := length cs `div` 2 in
      SegState (segments st ++ [cs])
               (segment_points st ++ [nth mid_idx cs origin])
               [pt2] n_zero
    else
      SegState (segments st) (segment_points st) [pt2] n_zero
  else
    SegState (segments st) (segment_points st) cs cl.

(** Lines 59-61: iteration [i] reads [track[i-1]] and [track[i]]; [i]
    ranges over [range(1, len(track_x))], so both are in range. *)
Definition seg_step (track : list point) (target : num)
    (st : seg_state) (i : nat) : seg_state :=
  loop_body target (nth (i - 1) track origin) (nth i track origin)
            (bool_decide (i = length track - 1)) st.

Definition seg_loop (track : list point) (target : num) : seg_state :=
  fold_left (seg_step track target) (seq 1 (length track - 1)) seg_init.

(** Python's division of the int [0] by a non-zero int [n]: the float
    zero with the sign of [n].  The ints are not converted, so the size of
    [n] does not matter. *)
Definition int_zero_div (n : Z) : num :=
  match of_int (Z.sgn n) with
  | Some s => n_div n_zero s
  | None => n_zero
  end.

(** Line 53, [track_length / num_segments].  With fewer than two points
    the loop of lines 49-50 never runs, [track_length] is still the Python
    int [0] and the division is Python's int division: it raises
    ZeroDivisionError on a zero divisor.  Otherwise [track_length] is a numpy
    float64: the int is converted, which raises OverflowError when it is too
    large, and numpy's division returns inf or nan (with a warning) on a
    zero divisor. *)
Definition segment_target_length (track : list point) (num_segments : Z)
    : result num :=
  if bool_decide (length track < 2) then
    if bool_decide (num_segments = 0%Z) then Raise ZeroDivisionError
    else Ok (int_zero_div num_segments)
  else
    match of_int num_segments with
    | None => Raise OverflowError
    | Some n => Ok (n_div (track_length track) n)
    end.

(** Lines 41-80. *)
Definition segmentation (track : list point) (num_segments : Z)
    : result seg_state :=
  match segment_target_length track num_segments with
  | Raise e => Raise e
  | Ok target => Ok (seg_loop track target)
  end.

(** *** The loop as a walk over the points *)

Definition no_more (rest : list point) : bool :=
  match rest with [] => true | _ :: _ => false end.

Fixpoint walk (target : num) (prev : point) (rest : list point)
    (st : seg_state) : seg_state :=
  match rest with
  | [] => st
  | pt2 :: rest' =>
      walk target pt2 rest' (loop_body target prev pt2 (no_more rest') st)
  end.

(** Lines 48-50 as a walk: the sum of the consecutive distances, added to
    [acc] from the left. *)
Fixpoint path_sum (acc : num) (prev : point) (rest : list point) : num :=
  match rest with
  | [] => acc
  | p :: rest' => path_sum (n_add acc (distance prev.1 prev.2 p.1 p.2)) p rest'
  end.

(** The length of the last step of the walk, [0] when there is none. *)
Fixpoint last_step (prev : point) (rest : list point) : num :=
  match rest with
  | [] => n_zero
  | p :: rest' =>
      match rest' with
      | [] => distance prev.1 prev.2 p.1 p.2
      | _ :: _ => last_step p rest'
      end
  end.

(** The last two points of the track differ. *)
Fixpoint ends_apart (prev : point) (rest : list point) : Prop :=
  match rest with
  | [] => False
  | p :: rest' =>
      match rest' with
      | [] => prev <> p
      | _ :: _ => ends_apart p rest'
      end
  end.

Definition last_points_differ (track : list point) : Prop :=
  match track with
  | [] => False
  | p0 :: rest => ends_apart p0 rest
  end.

(** *** What the claims speak about *)

(** The segments joined up again: every segment after the first gives
    up its first point, the boundary it shares with its predecessor. *)
Definition reconstruct (segs : list (list point)) : list point :=
  match segs with
  | [] => []
  | s :: rest => s ++ concat (map (drop 1) rest)
  end.

(** Each segment's last point is the next segment's first point. *)
Definition chained (segs : list (list point)) : Prop :=
  forall i s t, segs !! i = Some s -> segs !! S i = Some t ->
    exists p, last s = Some p /\ head t = Some p.

(** The recorded midpoint of [s] is [s[len(s) // 2]]. *)
Definition midpoint_of (s : list point) (m : point) : Prop :=
  s !! (length s `div` 2) = Some m.

(** *** Loop invariant

    [eff st prev] is the current segment as line 68 finds it in the
    iteration whose [pt1] is [prev]: lines 65-66 have put [pt1] into an empty
    one. *)
Definition eff (st : seg_state) (prev : point) : list point :=
  match current_segment st with
  | [] => [prev]
  | _ :: _ => current_segment st
  end.

(** [prefix] is the part of the track walked so far; it ends in [prev]. *)
Record seg_inv (prefix : list point) (prev : point) (st : seg_state) : Prop := {
  inv_last : last (eff st prev) = Some prev;
  inv_recon : reconstruct (segments st ++ [eff st prev]) = prefix;
  inv_chain : chained (segments st ++ [eff st prev]);
  inv_mid : Forall2 midpoint_of (segments st) (segment_points st);
  inv_len2 : Forall (fun s => 2 <= length s) (segments st)
}.

End Segmentation.

(** ** Fastest-driver attribution (main.py, lines 84-131) *)

Section Attribution.
Context {num : Type} `{NumOps num}.

(** One row of a driver's telemetry: the columns the loop reads. *)
Record sample : Type := Sample {
  X : num;
  Y : num;
  Speed : num
}.

(** Lines 85-86: one entry per segment, [None] and [0]. *)
Record attr_state : Type := AttrState {
  segment_fastest_driver : list (option string);
  segment_fastest_speed : list num
}.

Definition attr_init (segs : list (list (@point num))) : attr_state :=
  AttrState (replicate (length segs) None) (replicate (length segs) n_zero).

(** numpy's argmin of an array without nan, from a first best value on:
    the index of the first occurrence of the least value. *)
Fixpoint argmin_from (best_idx : nat) (best : num) (i : nat) (xs : list num)
    : nat :=
  match xs with
  | [] => best_idx
  | x :: xs' =>
      if n_ltb x best then argmin_from i x (S i) xs'
      else argmin_from best_idx best (S i) xs'
  end.

(** What pandas puts in the place of a missing value when it looks for a
    minimum. *)
Definition fill_missing (x : num) : num :=
  if n_isnan x then n_inf else x.

(** [np.argmin] of line 119.  [distances] is a pandas Series, so the
    call is handed to the Series: missing values (nan) are skipped, by
    putting +inf in their place and taking the index of the first occurrence
    of the least value.  [None] is the case of a Series with missing values
    only (and of an empty one, which line 102 excludes): pandas 2 then
    returns -1, with a warning, and pandas 3 raises ValueError. *)
Definition argmin (xs : list num) : option nat :=
  if forallb n_isnan xs then None
  else
    match map fill_missing xs with
    | [] => None
    | x :: xs' => Some (argmin_from 0 x 1 xs')
    end.

(** Line 118: the distance of one row to the midpoint, and the column of
    these distances. *)
Definition sample_distance (r : sample) (mid : @point num) : num :=
  n_sqrt (n_add (sq (n_sub (X r) mid.1)) (sq (n_sub (Y r) mid.2))).

Definition distances (driver_tel : list sample) (mid : @point num) : list num :=
  map (fun r => sample_distance r mid) driver_tel.

(** Whether some sample of the driver has a position, so that its
    distance to the midpoint is not missing. *)
Definition has_position (driver_tel : list sample) (mid : @point num) : bool :=
  negb (forallb n_isnan (distances driver_tel mid)).

(** Lines 118-122: the speed of the sample closest to the midpoint.  When
    no sample has a position, [closest_idx] is the -1 of pandas 2 and
    [.iloc[-1]] reads the last sample. *)
Definition nearest_speed (driver_tel : list sample) (mid : @point num) : num :=
  match argmin (distances driver_tel mid) with
  | Some closest_idx => nth closest_idx (map Speed driver_tel) n_zero
  | None => List.last (map Speed driver_tel) n_zero
  end.

(** Lines 114-127, iteration [i] of the loop over the segments. *)
Definition segment_update (driver : string) (driver_tel : list sample)
    (pts : list (@point num)) (st : attr_state) (i : nat) : attr_state :=
  let mid := nth i pts origin in
  let speed := nearest_speed driver_tel mid in
  if n_gtb speed (nth i (segment_fastest_speed st) n_zero) then
    AttrState (<[i := Some driver]> (segment_fastest_driver st))
              (<[i := speed]> (segment_fastest_speed st))
  else st.

(** Lines 91-131, one driver.  [lap_telemetry driver] is the telemetry of
    the driver's fastest lap as the data provider returns it; it is empty
    when the driver has no lap or no telemetry, and then lines 95-97 and
    102-104 skip the driver. *)
Definition driver_pass (lap_telemetry : string -> list sample)
    (segs : list (list (@point num))) (pts : list (@point num))
    (st : attr_state) (driver : string) : attr_state :=
  match lap_telemetry driver with
  | [] => st
  | (_ :: _) as driver_tel =>
      fold_left (segment_update driver driver_tel pts)
                (seq 0 (length segs)) st
  end.

(** Lines 85-131. *)
Definition attribution (all_drivers : list string)
    (lap_telemetry : string -> list sample)
    (segs : list (list (@point num))) (pts : list (@point num)) : attr_state :=
  fold_left (driver_pass lap_telemetry segs pts) all_drivers (attr_init segs).

(** *** One segment at a time

    What the loops do to the entry of one segment with midpoint [mid]:
    a fold of the comparison of line 125 over the drivers in order. *)
Definition entry_update (lap_telemetry : string -> list sample)
    (mid : @point num) (e : option string * num) (driver : string)
    : option string * num :=
  match lap_telemetry driver with
  | [] => e
  | (_ :: _) as driver_tel =>
      let speed := nearest_speed driver_tel mid in
      if n_gtb speed e.2 then (Some driver, speed) else e
  end.

Definition entry_of (st : attr_state) (i : nat)
    : option (option string * num) :=
  match segment_fastest_driver st !! i, segment_fastest_speed st !! i with
  | Some d, Some v => Some (d, v)
  | _, _ => None
  end.

End Attribution.

(** ** numpy's float64 *)

Definition is_nan (x : float) : bool := negb (PrimFloat.eqb x x).

(** A Python int as a float64: rounded to nearest even, and OverflowError
    ([None]) when that is beyond the largest float64. *)
Definition float_of_int (z : Z) : option float :=
  let f := SF2Prim (binary_normalize prec emax z 0 false) in
  if PrimFloat.is_infinity f then None else Some f.

#[export] Instance float_ops : NumOps float := {
  n_zero := 0%float;
  n_add := PrimFloat.add;
  n_sub := PrimFloat.sub;
  n_mul := PrimFloat.mul;
  n_div := PrimFloat.div;
  n_sqrt := PrimFloat.sqrt;
  of_int := float_of_int;
  n_ltb := PrimFloat.ltb;
  n_leb := PrimFloat.leb;
  n_isnan := is_nan;
  n_inf := infinity
}.

(** ** Exact arithmetic

    The same operations over the real numbers: the loops as they would run
    without rounding. *)

Definition Rleb (a b : R) : bool := if Rle_dec a b then true else false.
Definition Rltb (a b : R) : bool := if Rlt_dec a b then true else false.

#[export] Instance real_ops : NumOps R := {
  n_zero := 0%R;
  n_add := Rplus;
  n_sub := Rminus;
  n_mul := Rmult;
  n_div := Rdiv;
  n_sqrt := sqrt;
  of_int := fun z => Some (IZR z);
  n_ltb := Rltb;
  n_leb := Rleb;
  n_isnan := fun _ => false;
  n_inf := 0%R
}.

(** ** telemetry_utils.py *)

(** The two columns of the telemetry table that [analyze_slipstream]
    reads. *)
Record telemetry_table : Type := TelemetryTable {
  col_DistanceToCarAhead : list float;
  col_Speed : list float
}.

Definition drop_nan (col : list float) : list float :=
  List.filter (fun x => negb (is_nan x)) col.

Definition fmin (m y : float) : float := if PrimFloat.ltb y m then y else m.
Definition fmax (m y : float) : float := if PrimFloat.ltb m y then y else m.

(** pandas' [Series.min()] and [Series.max()]: missing values (nan) are
    skipped, and the result is nan when nothing is left. *)
Definition series_min (col : list float) : float :=
  match drop_nan col with
  | [] => nan
  | x :: xs => fold_left fmin xs x
  end.

Definition series_max (col : list float) : float :=
  match drop_nan col with
  | [] => nan
  | x :: xs => fold_left fmax xs x
  end.

(** The defaults of the keyword arguments. *)
Definition default_min_distance : float := 50%float.
Definition default_min_speed : float := 300%float.

(** [def analyze_slipstream(telemetry, min_distance=50.0, min_speed=300.0)]
    (lines 46-73). *)
Definition analyze_slipstream (telemetry : telemetry_table)
    (min_distance min_speed : float) : bool * float * float :=
  let min_dist := series_min (col_DistanceToCarAhead telemetry) in
  let max_speed := series_max (col_Speed telemetry) in
  let has_slipstream :=
    PrimFloat.ltb min_dist min_distance && PrimFloat.ltb min_speed max_speed in
  (has_slipstream, min_dist, max_speed).

(** ** driver_utils.py *)

(** A row of [session.results]: the columns [get_driver_info] reads. *)
Record result_row : Type := ResultRow {
  Abbreviation : string;
  FirstName : string;
  LastName : string;
  DriverNumber : string;
  TeamName : string
}.

Record session : Type := Session {
  results : list result_row
}.

(** [def get_driver_info(session, driver_code)] (lines 6-38). *)
Definition get_driver_info (s : session) (driver_code : string)
    : gmap string string :=
  let default_info : gmap string string :=
    <["name" := driver_code]> (<["number" := "N/A"]> (<["team" := "Unknown"]> ∅)) in
  let driver_data := filter (fun r => Abbreviation r = driver_code) (results s) in
  match driver_data with
  | [] => default_info
  | r :: _ =>
      <["name" := FirstName r +:+ " " +:+ LastName r]>
        (<["number" := DriverNumber r]> (<["team" := TeamName r]> ∅))
  end.

(** ** More of main.py: what the loop measures, the colours and the
    heatmap scale *)

Section SegmentationMeasures.
Context {num : Type} `{NumOps num}.

(** The length of a polyline as lines 57, 63 and 69 measure it: the
    distances of its steps, added from 0 in walking order. *)
Definition poly_length (s : list (@point num)) : num :=
  match s with
  | [] => n_zero
  | p :: rest => path_sum n_zero p rest
  end.

(** What the loop has established about the segment being built and the
    stored ones, [prev] being the last point read. *)
Record greedy_inv (target : num) (prev : @point num) (st : @seg_state num) : Prop := {
  ginv_last : last (eff st prev) = Some prev;
  ginv_length : current_length st = poly_length (eff st prev);
  ginv_open : forall k, 2 <= k <= length (eff st prev) ->
    n_geb (poly_length (take k (eff st prev))) target = false;
  ginv_reached : Forall (fun s => n_geb (poly_length s) target = true) (segments st);
  ginv_first : Forall (fun s => forall k, 2 <= k < length s ->
                 n_geb (poly_length (take k s)) target = false) (segments st)
}.
End SegmentationMeasures.

(** The lengths of the segments, added up. *)
Definition total_length (segs : list (list (@point R))) : R :=
  fold_right Rplus 0%R (map poly_length segs).

Section Colours.
Context {num : Type} `{NumOps num}.

(** Whether lines 95-104 let the driver through. *)
Definition has_data (lap_telemetry : string -> list (@sample num))
    (driver : string) : bool :=
  match lap_telemetry driver with
  | [] => false
  | _ :: _ => true
  end.

(** Lines 91-131 with [driver_colors]: the colour of a driver is stored
    (lines 107-110) before the driver's segments are compared.
    [driver_color driver] is what [fastf1.plotting.driver_color] returns,
    [None] when it raises; line 110 then stores 'gray'. *)
Definition driver_pass_colors (driver_color : string -> option string)
    (lap_telemetry : string -> list (@sample num))
    (segs : list (list (@point num))) (pts : list (@point num))
    (st : @attr_state num * gmap string string) (driver : string)
    : @attr_state num * gmap string string :=
  match lap_telemetry driver with
  | [] => st
  | (_ :: _) as driver_tel =>
      let driver_colors :=
        <[driver := default "gray" (driver_color driver)]> st.2 in
      (fold_left (segment_update driver driver_tel pts)
                 (seq 0 (length segs)) st.1,
       driver_colors)
  end.

(** Lines 85-131, with line 87. *)
Definition attribution_colors (driver_color : string -> option string)
    (all_drivers : list string)
    (lap_telemetry : string -> list (@sample num))
    (segs : list (list (@point num))) (pts : list (@point num))
    : @attr_state num * gmap string string :=
  fold_left (driver_pass_colors driver_color lap_telemetry segs pts)
            all_drivers (attr_init segs, ∅).

(** Lines 143-147: the colour of a segment; [None] is the KeyError of
    [driver_colors[driver]]. *)
Definition segment_color (driver_colors : gmap string string)
    (driver : option string) : option string :=
  match driver with
  | Some d => driver_colors !! d
  | None => Some "gray"
  end.

(** Python's [max] and [min] of a list: the first greatest, respectively
    least, item; [None] is the ValueError on an empty list. *)
Definition py_max (xs : list num) : option num :=
  match xs with
  | [] => None
  | x :: rest => Some (fold_left (fun m y => if n_gtb y m then y else m) rest x)
  end.

Definition py_min (xs : list num) : option num :=
  match xs with
  | [] => None
  | x :: rest => Some (fold_left (fun m y => if n_ltb y m then y else m) rest x)
  end.

(** Lines 243-244: the two ends of the colour scale of the heatmap. *)
Definition heatmap_bounds (speeds : list num) : option (num * num) :=
  match py_max speeds with
  | None => None
  | Some max_speed =>
      match py_min (List.filter (fun x => n_gtb x n_zero) speeds) with
      | None => None
      | Some min_speed => Some (min_speed, max_speed)
      end
  end.

End Colours.

(** An entry over float64 is either the initial one or holds a driver
    with a positive speed. *)
Definition settled (e : option string * float) : Prop :=
  (e.1 = None /\ e.2 = 0%float)
  \/ (is_Some e.1 /\ PrimFloat.ltb 0 e.2 = true).

(** ** More of telemetry_utils.py, and scripts/slipstream_analysis.py *)

(** A row of a telemetry table: the columns the utilities read. *)
Record tel_row : Type := TelRow {
  row_Distance : float;
  row_Speed : float;
  row_DistanceToCarAhead : float
}.

(** A row of [circuit.corners]. *)
Record corner : Type := Corner {
  Number : string;
  corner_Distance : float
}.

(** [corners[corners['Number'] == name]['Distance'].iloc[0]], when there
    is such a row. *)
Definition corner_distance (corners : list corner) (name : string)
    : option float :=
  match filter (fun c => Number c = name) corners with
  | [] => None
  | c :: _ => Some (corner_Distance c)
  end.

(** [def get_straight_section_telemetry(telemetry, start_corner,
    end_corner, circuit)] (lines 9-44); [corners] is [circuit.corners].  The
    empty table returned when a corner is missing is the empty list. *)
Definition get_straight_section_telemetry (telemetry : list tel_row)
    (start_corner end_corner : string) (corners : list corner)
    : list tel_row :=
  let start_corner_data := filter (fun c => Number c = start_corner) corners in
  let end_corner_data := filter (fun c => Number c = end_corner) corners in
  match start_corner_data, end_corner_data with
  | c1 :: _, c2 :: _ =>
      let start_distance := corner_Distance c1 in
      let end_distance := corner_Distance c2 in
      List.filter
        (fun r => PrimFloat.leb start_distance (row_Distance r)
                  && PrimFloat.leb (row_Distance r) end_distance)
        telemetry
  | _, _ => []
  end.

(** The two columns [analyze_slipstream] reads off a table of rows. *)
Definition table_of_rows (rows : list tel_row) : telemetry_table :=
  TelemetryTable (map row_DistanceToCarAhead rows) (map row_Speed rows).

(** What [analyze_slipstream_for_driver] prints. *)
Inductive driver_report : Type :=
| NoTelemetry
| NoSection
| Report (has_slipstream : bool) (min_dist max_speed : float).

(** [def analyze_slipstream_for_driver(session, driver, start_corner,
    end_corner)] (slipstream_analysis.py, lines 23-64); [telemetry] is what
    [get_driver_lap_telemetry(session, driver)] returns and [corners] the
    corners of [session.get_circuit_info()]. *)
Definition analyze_slipstream_for_driver (telemetry : list tel_row)
    (corners : list corner) (start_corner end_corner : string)
    : driver_report :=
  match telemetry with
  | [] => NoTelemetry
  | _ :: _ =>
      let section :=
        get_straight_section_telemetry telemetry start_corner end_corner
                                       corners in
      match section with
      | [] => NoSection
      | _ :: _ =>
          let '(has_slipstream, min_dist, max_speed) :=
            analyze_slipstream (table_of_rows section)
                               default_min_distance default_min_speed in
          Report has_slipstream min_dist max_speed
      end
  end.

Definition in_section (sd ed : float) (r : tel_row) : Prop :=
  PrimFloat.leb sd (row_Distance r) = true
  /\ PrimFloat.leb (row_Distance r) ed = true.

(** ** Concrete inputs *)

(** The tables of tests/unit/test_telemetry_utils.py: a hundred rows at
    320 km/h, 30 m behind, and a hundred rows at 290 km/h, 60 m behind. *)
Definition slipstream_table : telemetry_table :=
  TelemetryTable (replicate 100 30%float) (replicate 100 320%float).

Definition no_slipstream_table : telemetry_table :=
  TelemetryTable (replicate 100 60%float) (replicate 100 290%float).

(** The session of tests/conftest.py. *)
Definition mock_session : session :=
  Session [ResultRow "HAM" "Lewis" "Hamilton" "44" "Ferrari";
           ResultRow "VER" "Max" "Verstappen" "1" "Red Bull Racing";
           ResultRow "NOR" "Lando" "Norris" "4" "McLaren"].

Definition fpoint (x y : float) : @point float := (x, y).

(** The example of the specification: five points on a line. *)
Definition example_track : list (@point float) :=
  [fpoint 0 0; fpoint 10 0; fpoint 20 0; fpoint 30 0; fpoint 40 0].

(** A track whose last point is repeated. *)
Definition stalled_track : list (@point float) :=
  [fpoint 0 0; fpoint 10 0; fpoint 10 0].

(** Three points, ten apart. *)
Definition short_track : list (@point float) :=
  [fpoint 0 0; fpoint 10 0; fpoint 20 0].

(** A single point. *)
Definition one_point_track : list (@point float) := [fpoint 0 0].

(** Four distinct points: a long step, then two steps too short to show
    in the float64 sum of the lengths. *)
Definition lopsided_track : list (@point float) :=
  [fpoint 0 0; fpoint 1e16 0; fpoint 1e16 1; fpoint 1e16 2].

(** Three points on a line, over the reals. *)
Definition real_track : list (@point R) :=
  [(0%R, 0%R); (1%R, 0%R); (2%R, 0%R)].

(** The telemetry of the example: driver A is at 200 next to (10,0),
    driver B at 250 next to (30,0), both at 0 elsewhere. *)
Definition fsample (x y v : float) : @sample float := Sample x y v.

Definition tel_A : list (@sample float) :=
  [fsample 0 0 0; fsample 10 0 200; fsample 20 0 0; fsample 30 0 0;
   fsample 40 0 0].

Definition tel_B : list (@sample float) :=
  [fsample 0 0 0; fsample 10 0 0; fsample 20 0 0; fsample 30 0 250;
   fsample 40 0 0].

Definition example_telemetry (driver : string) : list (@sample float) :=
  if String.eqb driver "A" then tel_A
  else if String.eqb driver "B" then tel_B
  else [].

Definition example_segments : list (list (@point float)) :=
  [[fpoint 0 0; fpoint 10 0; fpoint 20 0];
   [fpoint 20 0; fpoint 30 0; fpoint 40 0]].

Definition example_midpoints : list (@point float) :=
  [fpoint 10 0; fpoint 30 0].

(** Two drivers standing still. *)
Definition idle_telemetry (driver : string) : list (@sample float) :=
  if String.eqb driver "A" then [fsample 10 0 0; fsample 30 0 0]
  else if String.eqb driver "B" then [fsample 10 0 0; fsample 30 0 0]
  else [].

(** Driver C at 150, then drivers A and B both at 200, next to (10,0). *)
Definition tied_telemetry (driver : string) : list (@sample float) :=
  if String.eqb driver "A" then tel_A
  else if String.eqb driver "B" then [fsample 10 0 200; fsample 30 0 100]
  else if String.eqb driver "C" then [fsample 10 0 150; fsample 30 0 100]
  else [].

(** The same with a driver D in front, whose first sample has no position
    and whose sample at (10,0) has no speed. *)
Definition patchy_telemetry (driver : string) : list (@sample float) :=
  if String.eqb driver "D"
  then [fsample nan nan 300; fsample 10 0 nan; fsample 30 0 100]
  else tied_telemetry driver.

(** A lap of four samples and the two corners of the unit tests. *)
Definition lap_rows : list tel_row :=
  [TelRow 400 310 80; TelRow 550 320 30; TelRow 650 330 40; TelRow 800 250 20].

Definition test_corners : list corner :=
  [Corner "Turn 13" 500; Corner "Turn 14" 700].

(** * Theorems *)

(** ** Segmentation *)

Section SegmentationProofs.
Context {num : Type} `{NumOps num}.
Implicit Types (p prev : @point num) (cs s : list (@point num))
  (segs : list (list (@point num))) (st : @seg_state num).

Lemma fold_seg_step_walk target rest : forall pre prev st,
  fold_left (seg_step (pre ++ prev :: rest) target)
            (seq (S (length pre)) (length rest)) st
  = walk target prev rest st.
Proof.
  induction rest as [|pt2 rest IH]; intros pre prev st; [done|].
  cbn [length seq fold_left walk].
  replace (pre ++ prev :: pt2 :: rest) with ((pre ++ [prev]) ++ pt2 :: rest)
    by (by rewrite <- app_assoc).
  specialize (IH (pre ++ [prev]) pt2).
  rewrite length_app in IH. cbn [length] in IH.
  replace (length pre + 1) with (S (length pre)) in IH by lia.
  rewrite <- IH. f_equal.
  unfold seg_step. f_equal.
  - replace (S (length pre) - 1) with (length pre) by lia.
    rewrite <- app_assoc. cbn [app].
    by rewrite nth_middle.
  - replace (S (length pre)) with (length (pre ++ [prev]))
      by (rewrite length_app; cbn; lia).
    by rewrite nth_middle.
  - rewrite !length_app. cbn [length].
    destruct rest; cbn [no_more length].
    + apply bool_decide_eq_true. lia.
    + apply bool_decide_eq_false. lia.
Qed.

Lemma seg_loop_walk target p0 rest :
  seg_loop (p0 :: rest) target = walk target p0 rest seg_init.
Proof.
  unfold seg_loop. cbn [length].
  replace (S (length rest) - 1) with (length rest) by lia.
  apply (fold_seg_step_walk target rest [] p0 seg_init).
Qed.

Lemma fold_track_length_path_sum rest : forall pre prev (acc : num),
  fold_left (track_length_step (pre ++ prev :: rest))
            (seq (S (length pre)) (length rest)) acc
  = path_sum acc prev rest.
Proof.
  induction rest as [|p rest IH]; intros pre prev acc; [done|].
  cbn [length seq fold_left path_sum].
  replace (pre ++ prev :: p :: rest) with ((pre ++ [prev]) ++ p :: rest)
    by (by rewrite <- app_assoc).
  specialize (IH (pre ++ [prev]) p).
  rewrite length_app in IH. cbn [length] in IH.
  replace (length pre + 1) with (S (length pre)) in IH by lia.
  rewrite <- IH. f_equal.
  unfold track_length_step.
  replace (S (length pre) - 1) with (length pre) by lia.
  replace (nth (length pre) ((pre ++ [prev]) ++ p :: rest) origin) with prev
    by (rewrite <- app_assoc; cbn [app]; by rewrite nth_middle).
  replace (nth (S (length pre)) ((pre ++ [prev]) ++ p :: rest) origin) with p.
  - done.
  - replace (S (length pre)) with (length (pre ++ [prev]))
      by (rewrite length_app; cbn; lia).
    by rewrite nth_middle.
Qed.

Lemma track_length_path_sum p0 rest :
  track_length (p0 :: rest) = path_sum n_zero p0 rest.
Proof.
  unfold track_length. cbn [length].
  replace (S (length rest) - 1) with (length rest) by lia.
  apply (fold_track_length_path_sum rest [] p0 n_zero).
Qed.
(** *** Joining segments *)

Lemma reconstruct_snoc segs cs :
  segs <> [] -> reconstruct (segs ++ [cs]) = reconstruct segs ++ drop 1 cs.
Proof.
  destruct segs as [|s segs]; [done|]. intros _. cbn.
  rewrite map_app, concat_app. cbn. by rewrite app_nil_r, app_assoc.
Qed.

Lemma reconstruct_extend segs cs p :
  cs <> [] ->
  reconstruct (segs ++ [cs ++ [p]]) = reconstruct (segs ++ [cs]) ++ [p].
Proof.
  intros Hcs. destruct segs as [|s segs].
  - cbn. by rewrite !app_nil_r.
  - rewrite !reconstruct_snoc by done.
    destruct cs; [done|]. cbn. by rewrite drop_0, app_assoc.
Qed.

Lemma reconstruct_single segs p :
  segs <> [] -> reconstruct (segs ++ [[p]]) = reconstruct segs.
Proof. intros. rewrite reconstruct_snoc by done. cbn. by rewrite app_nil_r. Qed.

Lemma chained_init cs : chained [cs].
Proof. intros i s t Hs Ht. by destruct i. Qed.

Lemma chained_prefix segs cs : chained (segs ++ [cs]) -> chained segs.
Proof.
  intros Hc i s t Hs Ht. apply (Hc i s t).
  - by apply lookup_app_l_Some.
  - by apply lookup_app_l_Some.
Qed.

Lemma chained_extend segs cs p :
  cs <> [] -> chained (segs ++ [cs]) -> chained (segs ++ [cs ++ [p]]).
Proof.
  intros Hcs Hc i s t Hs Ht.
  destruct (decide (S i < length segs)) as [Hlt|Hge].
  - rewrite lookup_app_l in Hs by lia. rewrite lookup_app_l in Ht by lia.
    apply (Hc i s t); by apply lookup_app_l_Some.
  - assert (S i = length segs) as Hi.
    { apply lookup_lt_Some in Ht. rewrite length_app in Ht. cbn in Ht. lia. }
    rewrite lookup_app_l in Hs by lia.
    rewrite Hi, list_lookup_middle in Ht by done.
    injection Ht as <-.
    destruct (Hc i s cs) as (q & Hl & Hh).
    { by apply lookup_app_l_Some. }
    { by rewrite Hi, list_lookup_middle. }
    exists q. split; [done|]. destruct cs; [done|]. done.
Qed.

Lemma chained_single segs cs p :
  last cs = Some p -> chained (segs ++ [cs]) ->
  chained ((segs ++ [cs]) ++ [[p]]).
Proof.
  intros Hl Hc i s t Hs Ht.
  destruct (decide (S i < length (segs ++ [cs]))) as [Hlt|Hge].
  - rewrite lookup_app_l in Hs by lia. rewrite lookup_app_l in Ht by lia.
    by apply (Hc i s t).
  - assert (S i = length (segs ++ [cs])) as Hi.
    { apply lookup_lt_Some in Ht. rewrite length_app in Ht. cbn in Ht. lia. }
    rewrite Hi, list_lookup_middle in Ht by done. injection Ht as <-.
    rewrite lookup_app_l in Hs by lia.
    rewrite length_app in Hi. cbn in Hi.
    replace i with (length segs) in Hs by lia.
    rewrite list_lookup_middle in Hs by done. injection Hs as <-.
    by exists p.
Qed.

(** *** One iteration *)

Lemma eff_nonempty st prev : last (eff st prev) = Some prev -> eff st prev <> [].
Proof. by destruct (eff st prev). Qed.

Lemma midpoint_in_range cs :
  2 <= length cs -> midpoint_of cs (nth (length cs `div` 2) cs origin).
Proof.
  intros Hlen. unfold midpoint_of.
  destruct (nth_lookup_or_length cs (length cs `div` 2) origin) as [Hin|Hout];
    [done|].
  pose proof (Nat.Div0.div_lt_upper_bound (length cs) 2 (length cs)). lia.
Qed.

(** What an iteration does, with lines 65-66 folded into [eff] and the
    guard of line 73 decided: a cut stores the extended segment and restarts
    from [pt2], otherwise the segment is extended. *)
Lemma loop_body_cases target prev pt2 is_last st :
  let cs := eff st prev ++ [pt2] in
  let cl := n_add (current_length st)
                  (distance prev.1 prev.2 pt2.1 pt2.2) in
  loop_body target prev pt2 is_last st =
    if n_geb cl target || is_last then
      SegState (segments st ++ [cs])
               (segment_points st ++ [nth (length cs `div` 2) cs origin])
               [pt2] n_zero
    else SegState (segments st) (segment_points st) cs cl.
Proof.
  intros cs cl. unfold loop_body. fold (eff st prev). fold cs. fold cl.
  destruct (n_geb cl target || is_last); [|done].
  rewrite bool_decide_eq_true_2; [done|].
  subst cs. rewrite length_app. cbn.
  unfold eff. destruct (current_segment st); cbn; lia.
Qed.

Lemma loop_body_inv target prefix prev pt2 is_last st :
  seg_inv prefix prev st ->
  seg_inv (prefix ++ [pt2]) pt2 (loop_body target prev pt2 is_last st).
Proof.
  intros [Hlast Hrec Hch Hmid Hlen].
  pose proof (eff_nonempty _ _ Hlast) as Hne.
  rewrite loop_body_cases.
  assert (2 <= length (eff st prev ++ [pt2])) as Hlen2.
  { rewrite length_app. cbn. destruct (eff st prev); [done|cbn; lia]. }
  destruct (n_geb _ target || is_last).
  - set (st' := SegState _ _ [pt2] n_zero).
    assert (eff st' pt2 = [pt2]) as Heff by done.
    split; rewrite ?Heff; subst st'; cbn [segments segment_points].
    + done.
    + rewrite reconstruct_single by (by destruct (segments st)).
      by rewrite reconstruct_extend, Hrec.
    + apply chained_single; [by rewrite last_snoc|].
      by apply chained_extend.
    + apply Forall2_app; [done|].
      constructor; [|constructor]. by apply midpoint_in_range.
    + apply Forall_app. split; [done|]. by constructor.
  - assert (eff (SegState (segments st) (segment_points st)
                   (eff st prev ++ [pt2])
                   (n_add (current_length st)
                      (distance prev.1 prev.2 pt2.1 pt2.2))) pt2
            = eff st prev ++ [pt2]) as Heff.
    { unfold eff at 1. cbn [current_segment].
      destruct (eff st prev); [done|done]. }
    split; rewrite ?Heff; cbn [segments segment_points].
    + by rewrite last_snoc.
    + by rewrite reconstruct_extend, Hrec.
    + by apply chained_extend.
    + done.
    + done.
Qed.

Lemma seg_init_inv p0 : seg_inv [p0] p0 seg_init.
Proof.
  split; cbn; first [done | apply chained_init].
Qed.

(** *** The whole walk *)

Lemma walk_inv target rest : forall prefix prev st,
  seg_inv prefix prev st ->
  seg_inv (prefix ++ rest) (List.last rest prev) (walk target prev rest st).
Proof.
  induction rest as [|pt2 rest IH]; intros prefix prev st Hinv.
  - cbn. by rewrite app_nil_r.
  - cbn [walk].
    replace (prefix ++ pt2 :: rest) with ((prefix ++ [pt2]) ++ rest)
      by (by rewrite <- app_assoc).
    replace (List.last (pt2 :: rest) prev) with (List.last rest pt2)
      by (clear; revert pt2; induction rest as [|a [|b r] IHr]; intros; cbn in *; eauto).
    apply IH. by apply loop_body_inv.
Qed.

(** The last iteration always cuts (line 71, [i == len(track_x) - 1]). *)
Lemma walk_ends_with_cut target rest : forall prev st,
  rest <> [] ->
  exists p, current_segment (walk target prev rest st) = [p]
            /\ segments (walk target prev rest st) <> [].
Proof.
  induction rest as [|pt2 rest IH]; intros prev st Hne; [done|].
  cbn [walk]. destruct rest as [|pt3 rest].
  - cbn [walk no_more]. rewrite loop_body_cases, orb_true_r.
    exists pt2. split; [done|]. cbn. by destruct (segments st).
  - by apply IH.
Qed.

(** Every iteration stores at most one segment. *)
Lemma loop_body_count target prev pt2 is_last st :
  length (segments st) <= length (segments (loop_body target prev pt2 is_last st))
  /\ length (segments (loop_body target prev pt2 is_last st))
     <= S (length (segments st)).
Proof.
  rewrite loop_body_cases. destruct (_ || _); cbn; rewrite ?length_app; cbn; lia.
Qed.

Lemma walk_count target rest : forall prev st,
  length (segments (walk target prev rest st))
  <= length (segments st) + length rest.
Proof.
  induction rest as [|pt2 rest IH]; intros prev st; cbn [walk length]; [lia|].
  specialize (IH pt2 (loop_body target prev pt2 (no_more rest) st)).
  pose proof (loop_body_count target prev pt2 (no_more rest) st). lia.
Qed.

(** *** The loop on a track of at least two points *)

Lemma segmentation_runs track (num_segments : Z) n :
  2 <= length track ->
  of_int num_segments = Some n ->
  segmentation track num_segments
  = Ok (seg_loop track (n_div (track_length track) n)).
Proof.
  intros Hlen Hn. unfold segmentation, segment_target_length.
  rewrite bool_decide_eq_false_2 by lia. by rewrite Hn.
Qed.

Lemma segmentation_overflows track (num_segments : Z) :
  2 <= length track ->
  of_int num_segments = None ->
  segmentation track num_segments = Raise OverflowError.
Proof.
  intros Hlen Hn. unfold segmentation, segment_target_length.
  rewrite bool_decide_eq_false_2 by lia. by rewrite Hn.
Qed.

Lemma seg_loop_spec (track : list (@point num)) target :
  2 <= length track ->
  reconstruct (segments (seg_loop track target)) = track
  /\ chained (segments (seg_loop track target))
  /\ Forall2 midpoint_of (segments (seg_loop track target))
                         (segment_points (seg_loop track target))
  /\ Forall (fun s => 2 <= length s) (segments (seg_loop track target))
  /\ 1 <= length (segments (seg_loop track target)) <= length track - 1.
Proof.
  intros Hlen. destruct track as [|p0 rest]; [cbn in Hlen; lia|].
  assert (rest <> []) as Hrest by (destruct rest; [cbn in Hlen; lia|done]).
  rewrite seg_loop_walk.
  destruct (walk_ends_with_cut target rest p0 seg_init Hrest) as (p & Hcur & Hne).
  pose proof (walk_inv target rest [p0] p0 seg_init (seg_init_inv p0))
    as [_ Hrec Hch Hmid Hlen2].
  pose proof (walk_count target rest p0 seg_init) as Hcount.
  set (r := walk target p0 rest seg_init) in *.
  assert (eff r (List.last rest p0) = [p]) as Heff
    by (unfold eff; by rewrite Hcur).
  rewrite Heff in Hrec, Hch.
  rewrite reconstruct_single in Hrec by done.
  apply chained_prefix in Hch.
  repeat split; try done.
  - destruct (segments r); [done|cbn; lia].
  - cbn in Hcount |- *. lia.
Qed.

(** With fewer than two points [range(1, len(track_x))] is empty. *)
Lemma seg_loop_short (track : list (@point num)) target :
  length track < 2 -> seg_loop track target = seg_init.
Proof.
  intros Hlen. unfold seg_loop.
  replace (length track - 1) with 0 by lia. done.
Qed.

Lemma seg_loop_midpoints (track : list (@point num)) target :
  Forall2 midpoint_of (segments (seg_loop track target))
                      (segment_points (seg_loop track target))
  /\ Forall (fun s => 2 <= length s) (segments (seg_loop track target)).
Proof.
  destruct (decide (length track < 2)) as [Hshort|Hlong].
  - rewrite seg_loop_short by done. cbn. split; constructor.
  - destruct (seg_loop_spec track target) as (_ & _ & Hmid & Hlen & _); [lia|].
    done.
Qed.

Lemma segmentation_Ok_inv (track : list (@point num)) num_segments r :
  segmentation track num_segments = Ok r ->
  exists target, r = seg_loop track target.
Proof.
  unfold segmentation.
  destruct (segment_target_length track num_segments) as [target|e]; [|done].
  intros [= <-]. by exists target.
Qed.

Lemma seg_loop_chained (track : list (@point num)) target :
  chained (segments (seg_loop track target)).
Proof.
  destruct (decide (length track < 2)) as [Hshort|Hlong].
  - rewrite seg_loop_short by done. intros i s t Hs. by destruct i.
  - by destruct (seg_loop_spec track target) as (_ & Hch & _); [lia|].
Qed.

(** C1: on a track of at least two points the loop of lines 56-80,
    whatever the target length, yields segments which, joined up with each
    shared boundary point taken once, are the track again, and each segment's
    last point is the next segment's first point.  So it is for every result
    of the segmentation with a positive number of segments; the segmentation
    returns whenever line 53 can convert that number (it raises
    OverflowError otherwise, before the loop). *)
Theorem reconstruction_invariant (track : list (@point num)) (num_segments : Z) :
  2 <= length track ->
  (0 < num_segments)%Z ->
  (forall target,
     reconstruct (segments (seg_loop track target)) = track
     /\ chained (segments (seg_loop track target)))
  /\ (forall r, segmentation track num_segments = Ok r ->
        reconstruct (segments r) = track /\ chained (segments r))
  /\ (forall n, of_int num_segments = Some n ->
        exists r, segmentation track num_segments = Ok r)
  /\ (of_int num_segments = None ->
      segmentation track num_segments = Raise OverflowError).
Proof.
  intros Hlen _.
  assert (forall target,
            reconstruct (segments (seg_loop track target)) = track
            /\ chained (segments (seg_loop track target))) as Hloop.
  { intros target.
    by destruct (seg_loop_spec track target Hlen) as (Hrec & Hch & _). }
  split; [done|]. split; [|split].
  - intros r [target ->]%segmentation_Ok_inv. apply Hloop.
  - intros n Hn. eexists. by apply segmentation_runs.
  - intros Hn. by apply segmentation_overflows.
Qed.

(** C5 (as amended): whenever the segmentation returns (it does on at
    least two points when line 53 can convert the target count) every
    retained segment has a recorded midpoint, the point at index
    [len(segment) // 2] of that segment's own list, hence one of its
    elements.  That index is at least 1, so it is never index 0, the place of
    the point shared with the previous segment; in a segment of three or more
    points it is not the last index either.  In a segment of two points it is
    the last index, and the point there is also the first point of the next
    segment, when there is one: the midpoint then is an element of an
    adjacent segment too. *)
Theorem midpoint_from_own_segment (track : list (@point num)) (num_segments : Z) :
  (forall n, 2 <= length track -> of_int num_segments = Some n ->
     exists r, segmentation track num_segments = Ok r)
  /\ forall r, segmentation track num_segments = Ok r ->
       length (segment_points r) = length (segments r)
       /\ forall i s, segments r !! i = Some s ->
            exists m, segment_points r !! i = Some m
                      /\ s !! (length s `div` 2) = Some m
                      /\ m ∈ s
                      /\ 1 <= length s `div` 2
                      /\ (3 <= length s -> length s `div` 2 < length s - 1)
                      /\ (length s = 2 ->
                          length s `div` 2 = length s - 1
                          /\ last s = Some m
                          /\ forall t, segments r !! S i = Some t ->
                               head t = Some m /\ m ∈ t).
Proof.
  split; [intros n Hlen Hn; eexists; by apply segmentation_runs|].
  intros r [target ->]%segmentation_Ok_inv.
  destruct (seg_loop_midpoints track target) as [Hmid Hlen].
  pose proof (seg_loop_chained track target) as Hch.
  split; [symmetry; by eapply Forall2_length|].
  intros i s Hs.
  destruct (Forall2_lookup_l _ _ _ _ _ Hmid Hs) as (m & Hm & Hidx).
  pose proof (proj1 (Forall_lookup _ _) Hlen i s Hs) as Hs2. cbn in Hs2.
  exists m. unfold midpoint_of in Hidx.
  split; [done|]. split; [done|].
  split; [by eapply list_elem_of_lookup_2|].
  split; [by apply Nat.div_le_lower_bound|].
  split.
  { intros Hs3.
    pose proof (Nat.Div0.div_lt_upper_bound (length s) 2 (length s - 1)). lia. }
  intros Htwo. rewrite Htwo in Hidx. cbn in Hidx.
  split; [by rewrite Htwo|].
  split; [rewrite last_lookup, Htwo; done|].
  intros t Hnext.
  destruct (Hch i s t Hs Hnext) as (q & Hq & Ht).
  rewrite last_lookup, Htwo in Hq. cbn in Hq.
  assert (q = m) as -> by congruence.
  split; [done|].
  destruct t as [|t0 t']; [done|]. injection Ht as ->. apply list_elem_of_here.
Qed.

(** C3 (as amended): the segmentation validates nothing.  With fewer than
    two points it returns with no segment and no midpoint, unless the
    segment count is 0, when the division of line 53 raises
    ZeroDivisionError.  With two or more points it returns at least one
    segment for every segment count that line 53 can convert, zero and
    negative counts included; for a count too large to convert, line 53
    raises the OverflowError of the conversion. *)
Theorem degenerate_input_not_rejected (track : list (@point num)) (num_segments : Z) :
  (length track < 2 -> num_segments <> 0%Z ->
     segmentation track num_segments = Ok seg_init)
  /\ (length track < 2 -> num_segments = 0%Z ->
     segmentation track num_segments = Raise ZeroDivisionError)
  /\ (2 <= length track ->
     (forall n, of_int num_segments = Some n ->
        exists r, segmentation track num_segments = Ok r
                  /\ 1 <= length (segments r))
     /\ (of_int num_segments = None ->
         segmentation track num_segments = Raise OverflowError)).
Proof.
  split; [|split].
  - intros Hlen HN. unfold segmentation, segment_target_length.
    rewrite bool_decide_eq_true_2, bool_decide_eq_false_2 by done.
    by rewrite seg_loop_short.
  - intros Hlen HN. unfold segmentation, segment_target_length.
    by rewrite !bool_decide_eq_true_2.
  - intros Hlen. split.
    + intros n Hn. eexists. split; [by apply segmentation_runs|].
      by destruct (seg_loop_spec track (n_div (track_length track) n) Hlen)
        as (_ & _ & _ & _ & Hcount & _).
    + intros Hn. by apply segmentation_overflows.
Qed.

(** The number of retained segments, whatever the arithmetic. *)
Lemma segment_count_any_arithmetic (track : list (@point num)) (num_segments : Z) :
  2 <= length track ->
  (forall r, segmentation track num_segments = Ok r ->
     1 <= length (segments r) <= length track - 1)
  /\ (forall n, of_int num_segments = Some n ->
        exists r, segmentation track num_segments = Ok r)
  /\ (of_int num_segments = None ->
      segmentation track num_segments = Raise OverflowError).
Proof.
  intros Hlen. split; [|split].
  - intros r [target ->]%segmentation_Ok_inv.
    by destruct (seg_loop_spec track target Hlen) as (_ & _ & _ & _ & Hcount).
  - intros n Hn. eexists. by apply segmentation_runs.
  - intros Hn. by apply segmentation_overflows.
Qed.

End SegmentationProofs.

(** ** Segmentation in exact arithmetic *)

Section Exact.
Local Open Scope R_scope.
Implicit Types (p q prev : @point R) (rest : list (@point R)) (st : @seg_state R).

Lemma distance_nonneg (x1 y1 x2 y2 : R) : 0 <= distance x1 y1 x2 y2.
Proof. apply sqrt_pos. Qed.

Lemma distance_pos p q : p <> q -> 0 < distance p.1 p.2 q.1 q.2.
Proof.
  destruct p as [a b], q as [c d]. intros Hne. cbn.
  apply sqrt_lt_R0. unfold sq. cbn.
  pose proof (Rle_0_sqr (c - a)) as Hx. pose proof (Rle_0_sqr (d - b)) as Hy.
  unfold Rsqr in Hx, Hy.
  destruct (Req_dec a c) as [->|Hac].
  - destruct (Req_dec b d) as [->|Hbd]; [done|].
    assert (0 < (d - b) * (d - b)) by (apply (Rsqr_pos_lt (d - b)); lra). lra.
  - assert (0 < (c - a) * (c - a)) by (apply (Rsqr_pos_lt (c - a)); lra). lra.
Qed.

Lemma Rleb_true a b : Rleb a b = true -> a <= b.
Proof. unfold Rleb. by destruct (Rle_dec a b). Qed.

Lemma path_sum_ge rest : forall acc prev, acc <= path_sum acc prev rest.
Proof.
  induction rest as [|p rest IH]; intros acc prev; cbn; [lra|].
  specialize (IH (acc + distance prev.1 prev.2 p.1 p.2) p).
  pose proof (distance_nonneg prev.1 prev.2 p.1 p.2).
  cbn in *. lra.
Qed.

Lemma last_step_pos rest : forall prev, ends_apart prev rest -> 0 < last_step prev rest.
Proof.
  induction rest as [|p rest IH]; intros prev Hap; [done|].
  cbn in *. destruct rest; [by apply distance_pos| by apply IH].
Qed.

Lemma walk_exact T rest : forall prev st acc,
  rest <> [] ->
  0 <= current_length st ->
  INR (length (segments st)) * T + current_length st <= acc ->
  (INR (length (segments (walk T prev rest st))) - 1) * T + last_step prev rest
  <= path_sum acc prev rest.
Proof.
  induction rest as [|p rest IH]; intros prev st acc Hne Hcl Hinv; [done|].
  pose proof (distance_nonneg prev.1 prev.2 p.1 p.2) as Hd.
  cbn [walk path_sum last_step]. destruct rest as [|q rest].
  - cbn [walk path_sum no_more]. rewrite loop_body_cases, orb_true_r.
    cbn [segments]. rewrite length_app, Nat.add_1_r, S_INR. cbn. lra.
  - rewrite loop_body_cases. cbn [no_more]. rewrite orb_false_r.
    destruct (n_geb _ T) eqn:Hcut.
    + apply Rleb_true in Hcut. cbn in Hcut.
      apply IH; cbn [segments current_length]; [done|cbn; lra|].
      rewrite length_app, Nat.add_1_r, S_INR. cbn in *. lra.
    + apply IH; cbn [segments current_length]; [done|cbn in *; lra|cbn in *; lra].
Qed.

Lemma seg_loop_exact_count p0 rest (N : Z) :
  (0 < N)%Z ->
  ends_apart p0 rest ->
  (Z.of_nat (length (segments
     (seg_loop (p0 :: rest) (n_div (track_length (p0 :: rest)) (IZR N)))))
   <= N)%Z.
Proof.
  intros HN Hap.
  assert (rest <> []) as Hrest by (by destruct rest).
  rewrite seg_loop_walk, track_length_path_sum.
  set (L := path_sum n_zero p0 rest).
  set (T := n_div L (IZR N)).
  pose proof (last_step_pos rest p0 Hap) as Hd.
  pose proof (walk_exact T rest p0 seg_init 0 Hrest) as Hw.
  cbn [seg_init current_length segments length] in Hw.
  assert (0 <= 0) as H0 by lra. specialize (Hw H0). clear H0.
  assert (INR 0 * T + 0 <= 0) as H0 by (cbn; lra). specialize (Hw H0). clear H0.
  change (path_sum 0 p0 rest) with L in Hw.
  set (k := length (segments (walk T p0 rest seg_init))) in *.
  assert (0 < IZR N) as HNR by (by apply IZR_lt).
  assert (L = T * IZR N) as HL.
  { subst T. cbn. field. lra. }
  destruct (decide (Z.of_nat k <= N)%Z) as [|Hgt]; [done|exfalso].
  assert (IZR N + 1 <= INR k) as Hk.
  { rewrite INR_IZR_INZ, <- plus_IZR. apply IZR_le. lia. }
  assert (0 <= L) as HLpos.
  { subst L. apply (path_sum_ge rest 0 p0). }
  assert (0 <= T) as HT.
  { subst T. cbn. apply Rmult_le_pos; [done|].
    by apply Rlt_le, Rinv_0_lt_compat. }
  clearbody L T k. nra.
Qed.

(** Without rounding, and when the last two points differ, the target
    count bounds the number of segments. *)
Lemma exact_count_bound (track : list (@point R)) (num_segments : Z) :
  (2 <= length track)%nat ->
  (0 < num_segments)%Z ->
  last_points_differ track ->
  exists r, segmentation track num_segments = Ok r
            /\ (Z.of_nat (length (segments r)) <= num_segments)%Z.
Proof.
  intros Hlen HN Hap. eexists.
  split; [by apply (segmentation_runs track num_segments (IZR num_segments))|].
  destruct track as [|p0 rest]; [done|]. by apply seg_loop_exact_count.
Qed.

End Exact.

(** C2 (as amended): on a track of at least two points and a positive
    target count, every result of the segmentation has at least one and at
    most (number of points - 1) segments, whatever the arithmetic; the
    segmentation returns when line 53 can convert the target count and
    raises the OverflowError of the conversion otherwise.  The count is at
    most the target count when the lengths are computed without rounding and
    the last two track points differ.  (With a repeated last point, or with
    float64 rounding, one more segment than the target can come out.) *)
Theorem segment_count_bound :
  (forall (num : Type) (ops : NumOps num) (track : list (@point num))
          (num_segments : Z),
     2 <= length track -> (0 < num_segments)%Z ->
     (forall r, segmentation track num_segments = Ok r ->
        1 <= length (segments r) <= length track - 1)
     /\ (forall n, of_int num_segments = Some n ->
           exists r, segmentation track num_segments = Ok r)
     /\ (of_int num_segments = None ->
         segmentation track num_segments = Raise OverflowError))
  /\ (forall (track : list (@point R)) (num_segments : Z),
     2 <= length track -> (0 < num_segments)%Z ->
     last_points_differ track ->
     exists r, segmentation track num_segments = Ok r
               /\ (Z.of_nat (length (segments r)) <= num_segments)%Z).
Proof.
  split.
  - intros num ops track N Hlen _. by apply segment_count_any_arithmetic.
  - intros track N Hlen HN Hap. by apply exact_count_bound.
Qed.

Lemma segment_count_bound_witness :
  (2 <= length example_track /\ (0 < 2)%Z
   /\ float_of_int 2 = Some 2%float
   /\ exists r, segmentation example_track 2 = Ok r
                /\ 1 <= length (segments r) <= length example_track - 1)
  /\ (2 <= length real_track /\ (0 < 2)%Z /\ last_points_differ real_track /\
   exists r, segmentation real_track 2 = Ok r
             /\ (Z.of_nat (length (segments r)) <= 2)%Z).
Proof.
  split.
  - assert (2 <= length example_track) as Hlen by (cbn; lia).
    assert (0 < 2)%Z as HN by lia.
    destruct (proj1 segment_count_bound float float_ops example_track 2%Z
                Hlen HN) as (Hcount & Hruns & _).
    destruct (Hruns 2%float eq_refl) as [r Hr].
    split; [exact Hlen|]. split; [exact HN|]. split; [reflexivity|].
    exists r. split; [exact Hr | exact (Hcount r Hr)].
  - assert (last_points_differ real_track) as Hap.
    { cbn. intros [= Hx]. lra. }
    split; [cbn; lia|]. split; [lia|]. split; [exact Hap|].
    apply (proj2 segment_count_bound real_track 2%Z); [cbn; lia | lia | exact Hap].
Defined.

(** C2, as stated, fails on a track whose last point is repeated: with a
    target count of 1 the loop cuts at the second point, where the whole
    length is reached, and again at the last one. *)
Lemma segment_count_exceeds_target :
  2 <= length stalled_track /\ (0 < 1)%Z /\
  exists r, segmentation stalled_track 1 = Ok r
            /\ length (segments r) = 2
            /\ ~ (Z.of_nat (length (segments r)) <= 1)%Z.
Proof.
  split; [cbn; lia|]. split; [lia|].
  eexists. split; [reflexivity|].
  split; [vm_compute; reflexivity|].
  vm_compute. intros Hle. by apply Hle.
Qed.

(** The same with four distinct points, by rounding: the float64 sum of
    the lengths is the length of the first step. *)
Lemma segment_count_exceeds_target_by_rounding :
  track_length lopsided_track = 1e16%float
  /\ exists r, segmentation lopsided_track 1 = Ok r
               /\ length (segments r) = 2.
Proof.
  split; [vm_compute; reflexivity|].
  eexists. split; [reflexivity|]. vm_compute. reflexivity.
Qed.

Lemma reconstruction_invariant_witness :
  2 <= length example_track /\ (0 < 2)%Z
  /\ float_of_int 2 = Some 2%float
  /\ exists r, segmentation example_track 2 = Ok r
               /\ reconstruct (segments r) = example_track
               /\ chained (segments r).
Proof.
  assert (2 <= length example_track) as Hlen by (cbn; lia).
  assert (0 < 2)%Z as HN by lia.
  destruct (@reconstruction_invariant float float_ops example_track 2%Z
              Hlen HN) as (_ & Hres & Hruns & _).
  destruct (Hruns 2%float eq_refl) as [r Hr].
  split; [exact Hlen|]. split; [exact HN|]. split; [reflexivity|].
  exists r. split; [exact Hr | exact (Hres r Hr)].
Defined.

Lemma midpoint_from_own_segment_witness :
  2 <= length short_track
  /\ float_of_int 2 = Some 2%float
  /\ exists r, segmentation short_track 2 = Ok r
  /\ length (segment_points r) = length (segments r)
  /\ forall i s, segments r !! i = Some s ->
       exists m, segment_points r !! i = Some m
                 /\ s !! (length s `div` 2) = Some m
                 /\ m ∈ s
                 /\ 1 <= length s `div` 2
                 /\ (3 <= length s -> length s `div` 2 < length s - 1)
                 /\ (length s = 2 ->
                     length s `div` 2 = length s - 1
                     /\ last s = Some m
                     /\ forall t, segments r !! S i = Some t ->
                          head t = Some m /\ m ∈ t).
Proof.
  assert (2 <= length short_track) as Hlen by (cbn; lia).
  split; [exact Hlen|]. split; [reflexivity|].
  destruct (proj1 (@midpoint_from_own_segment float float_ops short_track 2%Z)
              2%float Hlen eq_refl) as [r Hr].
  exists r. split; [exact Hr|].
  exact (proj2 (@midpoint_from_own_segment float float_ops short_track 2%Z)
           r Hr).
Defined.

(** C5, as stated, fails on three points ten apart and a target count of
    2: the first segment has two points, its midpoint is its last point, and
    that point is also the first point of the second segment. *)
Lemma midpoint_shared_with_next_segment :
  let r := SegState [[fpoint 0 0; fpoint 10 0]; [fpoint 10 0; fpoint 20 0]]
                    [fpoint 10 0; fpoint 20 0] [fpoint 20 0] 0%float in
  segmentation short_track 2 = Ok r
  /\ segment_points r !! 0 = Some (fpoint 10 0)
  /\ segments r !! 1 = Some [fpoint 10 0; fpoint 20 0]
  /\ fpoint 10 0 ∈ [fpoint 10 0; fpoint 20 0].
Proof.
  cbn zeta. split; [vm_compute; reflexivity|].
  split; [reflexivity|]. split; [reflexivity|]. apply list_elem_of_here.
Qed.

Lemma degenerate_input_not_rejected_witness :
  (length one_point_track < 2 /\ 80%Z <> 0%Z
   /\ segmentation one_point_track 80 = Ok seg_init)
  /\ (length one_point_track < 2
   /\ segmentation one_point_track 0 = Raise ZeroDivisionError)
  /\ (2 <= length short_track
   /\ float_of_int (-3) = Some (-3)%float
   /\ exists r, segmentation short_track (-3) = Ok r
                /\ 1 <= length (segments r))
  /\ (2 <= length short_track
   /\ float_of_int (10 ^ 400) = None
   /\ segmentation short_track (10 ^ 400) = Raise OverflowError).
Proof.
  assert (2 <= length short_track) as Hlen by (cbn; lia).
  assert (float_of_int (10 ^ 400) = None) as Hbig by (vm_compute; reflexivity).
  split; [|split; [|split]].
  - split; [cbn; lia|]. split; [lia|].
    apply (proj1 (@degenerate_input_not_rejected float float_ops
                    one_point_track 80%Z));
      [cbn; lia | lia].
  - split; [cbn; lia|].
    apply (proj1 (proj2 (@degenerate_input_not_rejected float float_ops
                           one_point_track 0%Z)));
      [cbn; lia | reflexivity].
  - split; [exact Hlen|]. split; [reflexivity|].
    exact (proj1 (proj2 (proj2 (@degenerate_input_not_rejected float float_ops
                                  short_track (-3)%Z)) Hlen)
             (-3)%float eq_refl).
  - split; [exact Hlen|]. split; [exact Hbig|].
    exact (proj2 (proj2 (proj2 (@degenerate_input_not_rejected float float_ops
                                  short_track (10 ^ 400)%Z)) Hlen) Hbig).
Defined.

(** C3, as stated, fails: a track of one point with the script's target
    count of 80 is segmented without any error, into no segment; and three
    points with a target count of -3 are segmented without any error, into
    two segments. *)
Lemma degenerate_input_accepted :
  (length one_point_track < 2
   /\ segmentation one_point_track 80 = Ok seg_init
   /\ ~ exists e, segmentation one_point_track 80 = Raise e)
  /\ ((-3 <= 0)%Z
   /\ segmentation short_track (-3)
      = Ok (SegState [[fpoint 0 0; fpoint 10 0]; [fpoint 10 0; fpoint 20 0]]
                     [fpoint 10 0; fpoint 20 0] [fpoint 20 0] 0%float)
   /\ ~ exists e, segmentation short_track (-3) = Raise e).
Proof.
  split.
  - split; [cbn; lia|]. split; [vm_compute; reflexivity|].
    intros [e He]. vm_compute in He. discriminate He.
  - split; [lia|]. split; [vm_compute; reflexivity|].
    intros [e He]. vm_compute in He. discriminate He.
Qed.

(** ** Attribution *)

Section AttributionProofs.
Context {num : Type} `{NumOps num}.
Implicit Types (st : @attr_state num) (e : option string * num)
  (pts : list (@point num)) (segs : list (list (@point num)))
  (tel : string -> list (@sample num)).

Lemma entry_of_Some st i e :
  entry_of st i = Some e <->
  segment_fastest_driver st !! i = Some e.1
  /\ segment_fastest_speed st !! i = Some e.2.
Proof.
  unfold entry_of. destruct e as [d v]. cbn.
  destruct (segment_fastest_driver st !! i), (segment_fastest_speed st !! i);
    split; first [by intros [= <- <-] | by intros [[= <-] [= <-]] | by intros [? ?] | done].
Qed.

Lemma attr_init_entry segs i :
  i < length segs -> entry_of (attr_init segs) i = Some (None, n_zero).
Proof.
  intros Hi. apply entry_of_Some. cbn.
  split; by apply lookup_replicate_2.
Qed.

(** [closest_idx] is a row of the telemetry, so line 122 reads the speed
    of one of the driver's samples. *)
Lemma argmin_from_range xs : forall best_idx (best : num) i,
  best_idx < i -> argmin_from best_idx best i xs < i + length xs.
Proof.
  induction xs as [|x xs IH]; intros best_idx best i Hlt; cbn [argmin_from length].
  - lia.
  - destruct (n_ltb x best).
    + specialize (IH i x (S i)). lia.
    + specialize (IH best_idx best (S i)). lia.
Qed.

Lemma argmin_range (xs : list num) k : argmin xs = Some k -> k < length xs.
Proof.
  unfold argmin. destruct (forallb n_isnan xs); [done|].
  destruct xs as [|x xs]; [done|]. cbn [map length]. intros [= <-].
  pose proof (argmin_from_range (map fill_missing xs) 0 (fill_missing x) 1) as Hr.
  rewrite length_map in Hr. lia.
Qed.

Lemma last_speed_in_telemetry (driver_tel : list (@sample num)) :
  driver_tel <> [] ->
  exists r, r ∈ driver_tel
            /\ List.last (map Speed driver_tel) n_zero = Speed r.
Proof.
  induction driver_tel as [|r0 [|r1 rest] IH]; [done| |]; intros _.
  - exists r0. split; [apply list_elem_of_here | done].
  - destruct IH as (r & Hin & Hr); [done|].
    exists r. split; [by apply list_elem_of_further | exact Hr].
Qed.

Lemma nearest_speed_in_telemetry (driver_tel : list (@sample num)) mid :
  driver_tel <> [] ->
  exists r, r ∈ driver_tel /\ nearest_speed driver_tel mid = Speed r.
Proof.
  intros Hne. unfold nearest_speed.
  destruct (argmin (distances driver_tel mid)) as [k|] eqn:Hk;
    [|by apply last_speed_in_telemetry].
  assert (k < length driver_tel) as Hlt.
  { apply argmin_range in Hk. unfold distances in Hk.
    by rewrite length_map in Hk. }
  destruct (lookup_lt_is_Some_2 _ _ Hlt) as [r Hr].
  exists r. split; [by eapply list_elem_of_lookup_2|].
  apply nth_lookup_Some. by rewrite list_lookup_fmap, Hr.
Qed.

(** Iteration [i] of line 113 rewrites entry [i] by the comparison of line
    125 and leaves the others alone. *)
Lemma segment_update_same driver driver_tel pts st i e :
  entry_of st i = Some e ->
  entry_of (segment_update driver driver_tel pts st i) i
  = Some (let speed := nearest_speed driver_tel (nth i pts origin) in
          if n_gtb speed e.2 then (Some driver, speed) else e).
Proof.
  intros He. pose proof He as [Hd Hv]%entry_of_Some.
  unfold segment_update. rewrite (nth_lookup_Some _ _ _ _ Hv).
  cbn zeta. destruct (n_gtb _ e.2); [|done].
  apply entry_of_Some. cbn.
  split; apply list_lookup_insert_eq; by eapply lookup_lt_Some.
Qed.

Lemma segment_update_other driver driver_tel pts st i j :
  i <> j ->
  entry_of (segment_update driver driver_tel pts st j) i = entry_of st i.
Proof.
  intros Hij. unfold segment_update. destruct (n_gtb _ _); [|done].
  unfold entry_of. cbn. by rewrite !list_lookup_insert_ne.
Qed.

Lemma fold_segment_update_other driver driver_tel pts js : forall st i,
  i ∉ js ->
  entry_of (fold_left (segment_update driver driver_tel pts) js st) i
  = entry_of st i.
Proof.
  induction js as [|j js IH]; intros st i Hi; [done|].
  cbn [fold_left]. rewrite IH by set_solver.
  apply segment_update_other. set_solver.
Qed.

Lemma fold_segment_update_entry driver driver_tel pts n st i e :
  i < n ->
  entry_of st i = Some e ->
  entry_of (fold_left (segment_update driver driver_tel pts) (seq 0 n) st) i
  = Some (let speed := nearest_speed driver_tel (nth i pts origin) in
          if n_gtb speed e.2 then (Some driver, speed) else e).
Proof.
  intros Hi He.
  replace n with (i + S (n - S i)) by lia.
  rewrite seq_app, fold_left_app. cbn [seq fold_left].
  rewrite fold_segment_update_other.
  - apply segment_update_same.
    rewrite fold_segment_update_other; [done|].
    rewrite list_elem_of_In, in_seq. lia.
  - rewrite list_elem_of_In, in_seq. lia.
Qed.

Lemma driver_pass_entry tel segs pts st driver i e :
  i < length segs ->
  entry_of st i = Some e ->
  entry_of (driver_pass tel segs pts st driver) i
  = Some (entry_update tel (nth i pts origin) e driver).
Proof.
  intros Hi He. unfold driver_pass, entry_update.
  destruct (tel driver) as [|r driver_tel]; [done|].
  by apply fold_segment_update_entry.
Qed.

Lemma fold_driver_pass_entry tel segs pts i drivers : forall st e,
  i < length segs ->
  entry_of st i = Some e ->
  entry_of (fold_left (driver_pass tel segs pts) drivers st) i
  = Some (fold_left (entry_update tel (nth i pts origin)) drivers e).
Proof.
  induction drivers as [|d drivers IH]; intros st e Hi He; [done|].
  cbn [fold_left]. apply IH; [done|]. by apply driver_pass_entry.
Qed.

(** The attribution of segment [i] is the fold of [entry_update] over the
    drivers, from [(None, 0)]. *)
Lemma attribution_entry all_drivers tel segs pts i :
  i < length segs ->
  entry_of (attribution all_drivers tel segs pts) i
  = Some (fold_left (entry_update tel (nth i pts origin)) all_drivers
                    (None, n_zero)).
Proof.
  intros Hi. unfold attribution.
  apply fold_driver_pass_entry; [done|]. by apply attr_init_entry.
Qed.

(** *** Folding [entry_update] *)

Lemma telemetry_empty_or_not tel d : tel d = [] \/ tel d <> [].
Proof. destruct (tel d); [by left|by right]. Qed.

Lemma entry_update_skip tel mid e d :
  tel d = [] -> entry_update tel mid e d = e.
Proof. intros Ht. unfold entry_update. by rewrite Ht. Qed.

Lemma entry_update_data tel mid e d :
  tel d <> [] ->
  entry_update tel mid e d
  = if n_gtb (nearest_speed (tel d) mid) e.2
    then (Some d, nearest_speed (tel d) mid) else e.
Proof. intros Ht. unfold entry_update. destruct (tel d); [done|reflexivity]. Qed.

Lemma entry_fold_no_update tel mid drivers : forall e,
  (forall d, d ∈ drivers -> tel d <> [] ->
     n_gtb (nearest_speed (tel d) mid) e.2 = false) ->
  fold_left (entry_update tel mid) drivers e = e.
Proof.
  induction drivers as [|d drivers IH]; intros e Hno; [done|].
  cbn [fold_left].
  assert (entry_update tel mid e d = e) as ->.
  { destruct (telemetry_empty_or_not tel d) as [Ht|Ht].
    - by apply entry_update_skip.
    - rewrite entry_update_data by done.
      rewrite Hno; [done|set_solver|done]. }
  apply IH. intros d' Hd'. apply Hno. set_solver.
Qed.

Lemma entry_fold_below tel mid m drivers : forall e,
  n_gtb m e.2 = true ->
  (forall d, d ∈ drivers -> tel d <> [] ->
     n_gtb m (nearest_speed (tel d) mid) = true
     \/ forall b, n_gtb (nearest_speed (tel d) mid) b = false) ->
  n_gtb m (fold_left (entry_update tel mid) drivers e).2 = true.
Proof.
  induction drivers as [|d drivers IH]; intros e He Hlow; [done|].
  cbn [fold_left]. apply IH.
  - destruct (telemetry_empty_or_not tel d) as [Ht|Ht].
    + by rewrite entry_update_skip.
    + rewrite entry_update_data by done.
      destruct (n_gtb (nearest_speed (tel d) mid) e.2) eqn:Hgt; [|done].
      cbn. destruct (Hlow d) as [Hbelow|Hnever]; [set_solver|done|done|].
      by rewrite Hnever in Hgt.
  - intros d' Hd'. apply Hlow. set_solver.
Qed.

Lemma entry_fold_first_max tel mid m pre d1 post :
  tel d1 <> [] ->
  nearest_speed (tel d1) mid = m ->
  n_gtb m n_zero = true ->
  (forall d, d ∈ pre -> tel d <> [] ->
     n_gtb m (nearest_speed (tel d) mid) = true
     \/ forall b, n_gtb (nearest_speed (tel d) mid) b = false) ->
  (forall d, d ∈ post -> tel d <> [] ->
     n_gtb (nearest_speed (tel d) mid) m = false) ->
  fold_left (entry_update tel mid) (pre ++ d1 :: post) (None, n_zero)
  = (Some d1, m).
Proof.
  intros Hd1 Hm Hpos Hpre Hpost.
  rewrite fold_left_app. cbn [fold_left].
  pose proof (entry_fold_below tel mid m pre (None, n_zero) Hpos Hpre) as Hb.
  set (e := fold_left (entry_update tel mid) pre (None, n_zero)) in *.
  assert (entry_update tel mid e d1 = (Some d1, m)) as ->.
  { rewrite entry_update_data, Hm, Hb by done. done. }
  by apply entry_fold_no_update.
Qed.

Lemma entry_update_ext tel1 tel2 mid e d :
  tel1 d = tel2 d -> entry_update tel1 mid e d = entry_update tel2 mid e d.
Proof. intros Heq. unfold entry_update. by rewrite Heq. Qed.

Lemma driver_pass_ext tel1 tel2 segs pts st d :
  tel1 d = tel2 d -> driver_pass tel1 segs pts st d = driver_pass tel2 segs pts st d.
Proof. intros Heq. unfold driver_pass. by rewrite Heq. Qed.

Lemma attribution_ext tel1 tel2 segs pts drivers : forall st,
  (forall d, d ∈ drivers -> tel1 d = tel2 d) ->
  fold_left (driver_pass tel1 segs pts) drivers st
  = fold_left (driver_pass tel2 segs pts) drivers st.
Proof.
  induction drivers as [|d drivers IH]; intros st Heq; [done|].
  cbn [fold_left]. rewrite (driver_pass_ext tel1 tel2) by set_solver.
  apply IH. intros d' Hd'. apply Heq. set_solver.
Qed.


(** C9: the attribution is a function of the processing order, of the
    telemetry of the drivers in it and of the segments: two runs that are
    given the same order and, for each driver in it, the same telemetry
    yield the same fastest drivers and fastest speeds, in every segment. *)
Theorem attribution_deterministic all_drivers tel1 tel2 segs pts :
  (forall d, d ∈ all_drivers -> tel1 d = tel2 d) ->
  attribution all_drivers tel1 segs pts = attribution all_drivers tel2 segs pts
  /\ forall i, entry_of (attribution all_drivers tel1 segs pts) i
               = entry_of (attribution all_drivers tel2 segs pts) i.
Proof.
  intros Heq.
  assert (attribution all_drivers tel1 segs pts
          = attribution all_drivers tel2 segs pts) as Hrun.
  { unfold attribution. by apply attribution_ext. }
  split; [done|]. intros i. by rewrite Hrun.
Qed.

End AttributionProofs.


Lemma attribution_deterministic_witness :
  attribution ["A"] example_telemetry example_segments example_midpoints
  = attribution ["A"] tied_telemetry example_segments example_midpoints
  /\ forall i,
       entry_of (attribution ["A"] example_telemetry
                   example_segments example_midpoints) i
       = entry_of (attribution ["A"] tied_telemetry
                     example_segments example_midpoints) i.
Proof.
  apply (attribution_deterministic ["A"] example_telemetry tied_telemetry
           example_segments example_midpoints).
  intros d Hd.
  apply elem_of_cons in Hd as [->|Hd]; [reflexivity|].
  by apply elem_of_nil in Hd.
Defined.

(** ** The example of the specification *)

(** C6: the five points (0,0), (10,0), (20,0), (30,0), (40,0) with a
    target count of 2 have length 40 and a target length of 20 per segment;
    the segmentation yields the two segments [(0,0),(10,0),(20,0)] and
    [(20,0),(30,0),(40,0)] with midpoints (10,0) and (30,0); with driver A at
    200 next to (10,0) and driver B at 250 next to (30,0), both at 0
    elsewhere, the attribution gives the first segment to A at 200 and the
    second to B at 250. *)
Theorem example_scenario :
  track_length example_track = 40%float
  /\ segment_target_length example_track 2 = Ok 20%float
  /\ segmentation example_track 2
     = Ok (SegState [[fpoint 0 0; fpoint 10 0; fpoint 20 0];
                     [fpoint 20 0; fpoint 30 0; fpoint 40 0]]
                    [fpoint 10 0; fpoint 30 0] [fpoint 40 0] 0%float)
  /\ attribution ["A"; "B"] example_telemetry
       [[fpoint 0 0; fpoint 10 0; fpoint 20 0];
        [fpoint 20 0; fpoint 30 0; fpoint 40 0]]
       [fpoint 10 0; fpoint 30 0]
     = AttrState [Some "A"; Some "B"] [200%float; 250%float].
Proof.
  repeat split; vm_compute; reflexivity.
Qed.

(** The attribution of the example depends on the telemetry only through
    the speeds of the samples nearest to the two midpoints. *)
Lemma example_attribution_any_telemetry (tel : string -> list (@sample float)) :
  tel "A" <> [] ->
  tel "B" <> [] ->
  nearest_speed (tel "A") (fpoint 10 0) = 200%float ->
  nearest_speed (tel "A") (fpoint 30 0) = 0%float ->
  nearest_speed (tel "B") (fpoint 10 0) = 0%float ->
  nearest_speed (tel "B") (fpoint 30 0) = 250%float ->
  entry_of (attribution ["A"; "B"] tel example_segments example_midpoints) 0
  = Some (Some "A", 200%float)
  /\ entry_of (attribution ["A"; "B"] tel example_segments example_midpoints) 1
     = Some (Some "B", 250%float).
Proof.
  intros HA HB HA1 HA2 HB1 HB2.
  rewrite !attribution_entry by (cbn; lia).
  cbn [fold_left nth example_midpoints].
  split.
  - rewrite (entry_update_data tel _ _ "A") by done. rewrite HA1.
    change (n_gtb 200%float (None, n_zero).2) with true. cbn iota.
    rewrite (entry_update_data tel _ _ "B") by done. rewrite HB1.
    reflexivity.
  - rewrite (entry_update_data tel _ _ "A") by done. rewrite HA2.
    change (n_gtb 0%float (None, n_zero).2) with false. cbn iota.
    rewrite (entry_update_data tel _ _ "B") by done. rewrite HB2.
    reflexivity.
Qed.

(** ** The order of float64 *)

Lemma SFcompare_refl f : f <> S754_nan -> SFcompare f f = Some Eq.
Proof.
  destruct f as [s|s| |s m e]; intros Hn; try done.
  - by destruct s.
  - cbn. rewrite Z.compare_refl.
    change (Pos.compare_cont Eq m m) with (Pos.compare m m).
    rewrite Pos.compare_refl. by destruct s.
Qed.

Ltac cmp_cases :=
  repeat match goal with
  | |- context [Z.compare ?a ?b] => destruct (Z.compare_spec a b)
  | H : context [Z.compare ?a ?b] |- _ => destruct (Z.compare_spec a b)
  | |- context [Pos.compare ?a ?b] => destruct (Pos.compare_spec a b)
  | H : context [Pos.compare ?a ?b] |- _ => destruct (Pos.compare_spec a b)
  end.

Lemma SFleb_trans a b c :
  SFleb a b = true -> SFleb b c = true -> SFleb a c = true.
Proof.
  unfold SFleb.
  destruct a as [sa|sa| |sa ma ea], b as [sb|sb| |sb mb eb],
           c as [sc|sc| |sc mc ec]; cbn;
    try destruct sa; try destruct sb; try destruct sc; cbn; try done;
    change (Pos.compare_cont Eq) with Pos.compare;
    intros Hab Hbc; cmp_cases; subst; cbn in *; try done; try lia.
Qed.

Lemma SFltb_leb a b : SFltb a b = true -> SFleb a b = true.
Proof. unfold SFltb, SFleb. by destruct (SFcompare a b) as [[]|]. Qed.

Lemma SFcompare_antisym a b :
  SFcompare b a = match SFcompare a b with Some c => Some (CompOpp c) | None => None end.
Proof.
  destruct a as [sa|sa| |sa ma ea], b as [sb|sb| |sb mb eb]; cbn;
    try destruct sa; try destruct sb; cbn; try done;
    change (Pos.compare_cont Eq) with Pos.compare;
    rewrite (Z.compare_antisym ea eb), (Pos.compare_antisym ma mb);
    destruct (Z.compare ea eb), (Pos.compare ma mb); done.
Qed.

Lemma SFcompare_None a b : SFcompare a b = None -> a = S754_nan \/ b = S754_nan.
Proof.
  destruct a as [sa|sa| |sa ma ea], b as [sb|sb| |sb mb eb]; cbn; auto; try done.
  all: try destruct sa; try destruct sb; done.
Qed.

Lemma SFleb_total a b :
  a <> S754_nan -> b <> S754_nan -> SFltb b a = false -> SFleb a b = true.
Proof.
  intros Ha Hb. unfold SFltb, SFleb. rewrite (SFcompare_antisym a b).
  destruct (SFcompare a b) as [[]|] eqn:Hc; cbn; try done.
  destruct (SFcompare_None _ _ Hc); done.
Qed.

Lemma is_nan_false x : is_nan x = false <-> Prim2SF x <> S754_nan.
Proof.
  unfold is_nan. rewrite FloatAxioms.eqb_spec. unfold SFeqb. split.
  - intros Hx Hn. rewrite Hn in Hx. done.
  - intros Hn. by rewrite SFcompare_refl.
Qed.

Lemma SFltb_below_or_missing z s m :
  SFltb z m = true -> SFltb m s = false -> SFeqb s m = false ->
  SFltb s m = true \/ forall b, SFltb b s = false.
Proof.
  unfold SFltb, SFeqb. intros Hz. rewrite (SFcompare_antisym s m).
  destruct (SFcompare s m) as [[]|] eqn:Hc; cbn; try done.
  - by left.
  - intros _ _. destruct (SFcompare_None _ _ Hc) as [->| ->].
    + right. intros b. by destruct b.
    + by destruct z.
Qed.

(** A speed that is neither above a maximum nor equal to it is below it,
    or is missing and then above nothing. *)
Lemma fltb_below_or_missing z s m :
  PrimFloat.ltb z m = true -> PrimFloat.ltb m s = false ->
  PrimFloat.eqb s m = false ->
  PrimFloat.ltb s m = true \/ forall b, PrimFloat.ltb b s = false.
Proof.
  rewrite !FloatAxioms.ltb_spec, FloatAxioms.eqb_spec. intros Hz Hm He.
  destruct (SFltb_below_or_missing _ _ _ Hz Hm He) as [Hlt|Hnever]; [by left|].
  right. intros b. rewrite FloatAxioms.ltb_spec. apply Hnever.
Qed.

(** ** Ties *)

(** C4 (as amended): when two drivers' nearest samples to a segment's
    midpoint have the same speed, that speed is above 0, the initial fastest
    speed, and no driver's nearest sample has a higher one, the attribution
    records the first driver in the processing order whose speed equals it:
    line 125 compares with [>], so a later driver with an equal speed does
    not replace an earlier one, and an earlier driver with a lower speed, or
    with none (nan), is replaced or never recorded.  The nearest sample is the
    one line 119 finds: every driver with telemetry has, for every midpoint,
    a sample with a position, so with a distance to the midpoint. *)
Theorem tie_break_first_driver pre d1 between d2 post
    (tel : string -> list (@sample float)) segs pts i (m : float) :
  length pts = length segs ->
  i < length segs ->
  tel d1 <> [] ->
  tel d2 <> [] ->
  (forall d j, d ∈ pre ++ d1 :: between ++ d2 :: post -> tel d <> [] ->
     j < length segs -> has_position (tel d) (nth j pts origin) = true) ->
  nearest_speed (tel d1) (nth i pts origin) = m ->
  nearest_speed (tel d2) (nth i pts origin) = m ->
  PrimFloat.ltb 0 m = true ->
  (forall d, d ∈ pre ++ d1 :: between ++ d2 :: post -> tel d <> [] ->
     PrimFloat.ltb m (nearest_speed (tel d) (nth i pts origin)) = false) ->
  (forall d, d ∈ pre -> tel d <> [] ->
     PrimFloat.eqb (nearest_speed (tel d) (nth i pts origin)) m = false) ->
  entry_of (attribution (pre ++ d1 :: between ++ d2 :: post) tel segs pts) i
  = Some (Some d1, m).
Proof.
  intros _ Hi Hd1 Hd2 _ Hm1 Hm2 Hpos Hmax Hfirst.
  rewrite attribution_entry by done. f_equal.
  apply entry_fold_first_max; try done.
  - intros d Hd Ht.
    apply (fltb_below_or_missing 0 _ m Hpos).
    + apply Hmax; [|done]. apply elem_of_app. by left.
    + by apply Hfirst.
  - intros d Hd. apply Hmax.
    apply elem_of_app. right. by apply list_elem_of_further.
Qed.

Lemma tie_break_first_driver_witness :
  nearest_speed (patchy_telemetry "A") (nth 0 example_midpoints origin)
  = 200%float
  /\ nearest_speed (patchy_telemetry "B") (nth 0 example_midpoints origin)
     = 200%float
  /\ is_nan (nearest_speed (patchy_telemetry "D")
               (nth 0 example_midpoints origin)) = true
  /\ entry_of (attribution (["D"; "C"] ++ "A" :: [] ++ "B" :: [])
                 patchy_telemetry example_segments example_midpoints) 0
     = Some (Some "A", 200%float).
Proof.
  split; [vm_compute; reflexivity|]. split; [vm_compute; reflexivity|].
  split; [vm_compute; reflexivity|].
  refine (@tie_break_first_driver ["D"; "C"] "A" [] "B" []
            patchy_telemetry example_segments example_midpoints 0 200%float
            _ _ _ _ _ _ _ _ _ _);
    try (vm_compute; reflexivity); try (cbn; lia); try (vm_compute; discriminate).
  - intros d j Hd _ Hj. cbn in Hd, Hj.
    assert (j = 0 \/ j = 1) as [-> | ->] by lia;
      repeat (apply elem_of_cons in Hd as [->|Hd]; [vm_compute; reflexivity|]);
      by apply elem_of_nil in Hd.
  - intros d Hd _. cbn in Hd.
    repeat (apply elem_of_cons in Hd as [->|Hd]; [vm_compute; reflexivity|]).
    by apply elem_of_nil in Hd.
  - intros d Hd _.
    repeat (apply elem_of_cons in Hd as [->|Hd]; [vm_compute; reflexivity|]).
    by apply elem_of_nil in Hd.
Defined.

(** C4, as stated, fails when the common maximum is 0: drivers A and B
    both have speed 0 at their sample nearest to the first midpoint, no
    other driver is there, and the attribution records no driver, not A. *)
Lemma tie_at_zero_records_nobody :
  nearest_speed (idle_telemetry "A") (fpoint 10 0) = 0%float
  /\ nearest_speed (idle_telemetry "B") (fpoint 10 0) = 0%float
  /\ entry_of (attribution ["A"; "B"] idle_telemetry
                 example_segments example_midpoints) 0
     = Some (None, 0%float)
  /\ segment_fastest_driver (attribution ["A"; "B"] idle_telemetry
                 example_segments example_midpoints) !! 0
     <> Some (Some "A").
Proof.
  split; [vm_compute; reflexivity|]. split; [vm_compute; reflexivity|].
  split; [vm_compute; reflexivity|]. vm_compute. discriminate.
Qed.

(** ** telemetry_utils *)

Lemma fleb_refl x : is_nan x = false -> PrimFloat.leb x x = true.
Proof.
  intros Hx%is_nan_false. rewrite FloatAxioms.leb_spec. unfold SFleb.
  by rewrite SFcompare_refl.
Qed.

Lemma fleb_trans x y z :
  PrimFloat.leb x y = true -> PrimFloat.leb y z = true ->
  PrimFloat.leb x z = true.
Proof. rewrite !FloatAxioms.leb_spec. apply SFleb_trans. Qed.

Lemma fltb_leb x y : PrimFloat.ltb x y = true -> PrimFloat.leb x y = true.
Proof. rewrite FloatAxioms.ltb_spec, FloatAxioms.leb_spec. apply SFltb_leb. Qed.

Lemma fleb_total x y :
  is_nan x = false -> is_nan y = false ->
  PrimFloat.ltb y x = false -> PrimFloat.leb x y = true.
Proof.
  intros Hx%is_nan_false Hy%is_nan_false. rewrite FloatAxioms.ltb_spec, FloatAxioms.leb_spec.
  by apply SFleb_total.
Qed.

Lemma fold_fmin_spec xs : forall m,
  is_nan m = false -> Forall (fun y => is_nan y = false) xs ->
  fold_left fmin xs m ∈ m :: xs
  /\ PrimFloat.leb (fold_left fmin xs m) m = true
  /\ forall y, y ∈ xs -> PrimFloat.leb (fold_left fmin xs m) y = true.
Proof.
  induction xs as [|y xs IH]; intros m Hm Hxs; cbn [fold_left].
  - split; [apply list_elem_of_here|]. split; [by apply fleb_refl|].
    intros y Hy. by apply elem_of_nil in Hy.
  - apply Forall_cons in Hxs as [Hy Hxs].
    assert (is_nan (fmin m y) = false) as Hm'
      by (unfold fmin; by destruct (PrimFloat.ltb y m)).
    destruct (IH (fmin m y) Hm' Hxs) as (Hin & Hle & Hall).
    set (r := fold_left fmin xs (fmin m y)) in *.
    assert (PrimFloat.leb (fmin m y) m = true
            /\ PrimFloat.leb (fmin m y) y = true) as [Hmm Hmy].
    { unfold fmin. destruct (PrimFloat.ltb y m) eqn:Hlt.
      - split; [by apply fltb_leb | by apply fleb_refl].
      - split; [by apply fleb_refl | by apply fleb_total]. }
    split; [|split].
    + apply elem_of_cons in Hin as [Hr|Hin].
      * rewrite Hr. unfold fmin. destruct (PrimFloat.ltb y m).
        -- apply list_elem_of_further, list_elem_of_here.
        -- apply list_elem_of_here.
      * by do 2 apply list_elem_of_further.
    + by eapply fleb_trans.
    + intros z [->|Hz]%elem_of_cons; [by eapply fleb_trans | by apply Hall].
Qed.

Lemma fold_fmax_spec xs : forall m,
  is_nan m = false -> Forall (fun y => is_nan y = false) xs ->
  fold_left fmax xs m ∈ m :: xs
  /\ PrimFloat.leb m (fold_left fmax xs m) = true
  /\ forall y, y ∈ xs -> PrimFloat.leb y (fold_left fmax xs m) = true.
Proof.
  induction xs as [|y xs IH]; intros m Hm Hxs; cbn [fold_left].
  - split; [apply list_elem_of_here|]. split; [by apply fleb_refl|].
    intros y Hy. by apply elem_of_nil in Hy.
  - apply Forall_cons in Hxs as [Hy Hxs].
    assert (is_nan (fmax m y) = false) as Hm'
      by (unfold fmax; by destruct (PrimFloat.ltb m y)).
    destruct (IH (fmax m y) Hm' Hxs) as (Hin & Hle & Hall).
    set (r := fold_left fmax xs (fmax m y)) in *.
    assert (PrimFloat.leb m (fmax m y) = true
            /\ PrimFloat.leb y (fmax m y) = true) as [Hmm Hmy].
    { unfold fmax. destruct (PrimFloat.ltb m y) eqn:Hlt.
      - split; [by apply fltb_leb | by apply fleb_refl].
      - split; [by apply fleb_refl | by apply fleb_total]. }
    split; [|split].
    + apply elem_of_cons in Hin as [Hr|Hin].
      * rewrite Hr. unfold fmax. destruct (PrimFloat.ltb m y).
        -- apply list_elem_of_further, list_elem_of_here.
        -- apply list_elem_of_here.
      * by do 2 apply list_elem_of_further.
    + by eapply fleb_trans.
    + intros z [->|Hz]%elem_of_cons; [by eapply fleb_trans | by apply Hall].
Qed.

Lemma drop_nan_spec col y :
  y ∈ drop_nan col <-> y ∈ col /\ is_nan y = false.
Proof.
  unfold drop_nan. rewrite !list_elem_of_In, filter_In.
  by rewrite negb_true_iff.
Qed.

Lemma drop_nan_Forall col : Forall (fun y => is_nan y = false) (drop_nan col).
Proof. apply Forall_forall. intros y Hy. by apply drop_nan_spec in Hy as [_ ?]. Qed.

Lemma series_min_spec col :
  drop_nan col <> [] ->
  series_min col ∈ col
  /\ is_nan (series_min col) = false
  /\ forall y, y ∈ col -> is_nan y = false ->
       PrimFloat.leb (series_min col) y = true.
Proof.
  intros Hne. pose proof (drop_nan_Forall col) as Hall.
  pose proof (drop_nan_spec col) as Hspec.
  unfold series_min.
  destruct (drop_nan col) as [|x xs]; [done|].
  apply Forall_cons in Hall as [Hx Hxs].
  destruct (fold_fmin_spec xs x Hx Hxs) as (Hin & Hle & Hlow).
  split; [by apply Hspec|]. split; [by apply Hspec|].
  intros y Hy Hnan.
  assert (y ∈ x :: xs) as [->|Hyx]%elem_of_cons by (by apply Hspec);
    [done | by apply Hlow].
Qed.

Lemma series_max_spec col :
  drop_nan col <> [] ->
  series_max col ∈ col
  /\ is_nan (series_max col) = false
  /\ forall y, y ∈ col -> is_nan y = false ->
       PrimFloat.leb y (series_max col) = true.
Proof.
  intros Hne. pose proof (drop_nan_Forall col) as Hall.
  pose proof (drop_nan_spec col) as Hspec.
  unfold series_max.
  destruct (drop_nan col) as [|x xs]; [done|].
  apply Forall_cons in Hall as [Hx Hxs].
  destruct (fold_fmax_spec xs x Hx Hxs) as (Hin & Hle & Hlow).
  split; [by apply Hspec|]. split; [by apply Hspec|].
  intros y Hy Hnan.
  assert (y ∈ x :: xs) as [->|Hyx]%elem_of_cons by (by apply Hspec);
    [done | by apply Hlow].
Qed.

(** C8: [analyze_slipstream] returns the minimum of the DistanceToCarAhead
    column and the maximum of the Speed column (of the values that are not
    missing: an element of the column below, respectively above, all
    others), and its flag is true exactly when that minimum is strictly
    below the distance threshold and that maximum strictly above the speed
    threshold; the thresholds default to 50.0 and 300.0. *)
Theorem analyze_slipstream_spec (telemetry : telemetry_table)
    (min_distance min_speed : float) :
  let dist := col_DistanceToCarAhead telemetry in
  let speed := col_Speed telemetry in
  let '(has_slipstream, min_dist, max_speed) :=
    analyze_slipstream telemetry min_distance min_speed in
  min_dist = series_min dist
  /\ max_speed = series_max speed
  /\ (has_slipstream = true <->
      PrimFloat.ltb min_dist min_distance = true
      /\ PrimFloat.ltb min_speed max_speed = true)
  /\ (drop_nan dist <> [] ->
      min_dist ∈ dist
      /\ forall y, y ∈ dist -> is_nan y = false ->
           PrimFloat.leb min_dist y = true)
  /\ (drop_nan speed <> [] ->
      max_speed ∈ speed
      /\ forall y, y ∈ speed -> is_nan y = false ->
           PrimFloat.leb y max_speed = true)
  /\ default_min_distance = 50%float
  /\ default_min_speed = 300%float.
Proof.
  cbn zeta. unfold analyze_slipstream.
  split; [done|]. split; [done|]. split; [apply andb_true_iff|].
  split; [|split; [|done]].
  - intros Hne. destruct (series_min_spec _ Hne) as (Hin & _ & Hlow). done.
  - intros Hne. destruct (series_max_spec _ Hne) as (Hin & _ & Hhigh). done.
Qed.

(** The two unit tests of [analyze_slipstream]. *)
Lemma test_analyze_slipstream_with_slipstream :
  analyze_slipstream slipstream_table default_min_distance default_min_speed
  = (true, 30%float, 320%float).
Proof. vm_compute. reflexivity. Qed.

Lemma test_analyze_slipstream_without_slipstream :
  analyze_slipstream no_slipstream_table default_min_distance default_min_speed
  = (false, 60%float, 290%float).
Proof. vm_compute. reflexivity. Qed.

(** The comparisons are strict: a speed of exactly 300 is not enough. *)
Lemma analyze_slipstream_at_threshold :
  analyze_slipstream (TelemetryTable [30%float] [300%float])
                     default_min_distance default_min_speed
  = (false, 30%float, 300%float).
Proof. vm_compute. reflexivity. Qed.

(** ** driver_utils *)

Lemma filter_no_match (rows : list result_row) (driver_code : string) :
  (forall r, r ∈ rows -> Abbreviation r <> driver_code) ->
  filter (fun r => Abbreviation r = driver_code) rows = [].
Proof.
  intros Hno. induction rows as [|r rows IH]; [done|].
  rewrite filter_cons_False by (apply Hno, list_elem_of_here).
  apply IH. intros r' Hr'. by apply Hno, list_elem_of_further.
Qed.

(** C10: the dict [get_driver_info] returns has exactly the keys name,
    number and team; when no row of the result table has the given code as
    its Abbreviation, it is the default dict, with the code as name, 'N/A'
    as number and 'Unknown' as team. *)
Theorem get_driver_info_keys (s : session) (driver_code : string) :
  dom (get_driver_info s driver_code) = ({["name"; "number"; "team"]} : gset string)
  /\ ((forall r, r ∈ results s -> Abbreviation r <> driver_code) ->
      get_driver_info s driver_code
      = <["name" := driver_code]>
          (<["number" := "N/A"]> (<["team" := "Unknown"]> ∅))).
Proof.
  split.
  - unfold get_driver_info.
    destruct (filter _ (results s)); rewrite !dom_insert_L, dom_empty_L;
      set_solver.
  - intros Hno. unfold get_driver_info. by rewrite filter_no_match.
Qed.

(** The unit tests of [get_driver_info]. *)
Lemma test_get_driver_info_existing_driver :
  get_driver_info mock_session "HAM" !! "name" = Some "Lewis Hamilton"
  /\ get_driver_info mock_session "HAM" !! "number" = Some "44"
  /\ get_driver_info mock_session "HAM" !! "team" = Some "Ferrari".
Proof. repeat split; vm_compute; reflexivity. Qed.

Lemma test_get_driver_info_nonexistent_driver :
  get_driver_info mock_session "XXX" !! "name" = Some "XXX"
  /\ get_driver_info mock_session "XXX" !! "number" = Some "N/A"
  /\ get_driver_info mock_session "XXX" !! "team" = Some "Unknown".
Proof. repeat split; vm_compute; reflexivity. Qed.

Lemma analyze_slipstream_spec_witness :
  drop_nan (col_DistanceToCarAhead slipstream_table) <> []
  /\ drop_nan (col_Speed slipstream_table) <> []
  /\ series_min (col_DistanceToCarAhead slipstream_table)
       ∈ col_DistanceToCarAhead slipstream_table
  /\ series_max (col_Speed slipstream_table) ∈ col_Speed slipstream_table.
Proof.
  assert (drop_nan (col_DistanceToCarAhead slipstream_table) <> []) as Hd
    by (vm_compute; discriminate).
  assert (drop_nan (col_Speed slipstream_table) <> []) as Hs
    by (vm_compute; discriminate).
  pose proof (analyze_slipstream_spec slipstream_table
                default_min_distance default_min_speed) as Hspec.
  cbn zeta in Hspec. unfold analyze_slipstream in Hspec.
  destruct Hspec as (_ & _ & _ & Hmin & Hmax & _).
  split; [exact Hd|]. split; [exact Hs|].
  split; [exact (proj1 (Hmin Hd)) | exact (proj1 (Hmax Hs))].
Defined.

Lemma get_driver_info_keys_witness :
  dom (get_driver_info mock_session "XXX")
  = ({["name"; "number"; "team"]} : gset string)
  /\ get_driver_info mock_session "XXX"
     = <["name" := "XXX"]>
         (<["number" := "N/A"]> (<["team" := "Unknown"]> ∅)).
Proof.
  destruct (get_driver_info_keys mock_session "XXX") as [Hdom Hdefault].
  split; [exact Hdom|]. apply Hdefault.
  intros r Hr. cbn in Hr.
  apply elem_of_cons in Hr as [->|Hr]; [discriminate|].
  apply elem_of_cons in Hr as [->|Hr]; [discriminate|].
  apply elem_of_cons in Hr as [->|Hr]; [discriminate|].
  by apply elem_of_nil in Hr.
Defined.

(** * More of the code *)

(** ** The segments *)

Section SegmentationMore.
Context {num : Type} `{NumOps num}.
Implicit Types (p prev : @point num) (cs s : list (@point num))
  (segs : list (list (@point num))) (st : @seg_state num).

Lemma last_cons_default (rest : list (@point num)) : forall r p,
  List.last (r :: rest) p = List.last rest r.
Proof.
  induction rest as [|a rest IH]; intros r p; [done|].
  change (List.last (r :: a :: rest) p) with (List.last (a :: rest) p).
  rewrite !IH. done.
Qed.

Lemma last_default_Some (cs : list (@point num)) prev d :
  last cs = Some prev -> List.last cs d = prev.
Proof.
  induction cs as [|a cs IH]; [done|]. intros Hlast.
  destruct cs as [|b cs]; [by injection Hlast|].
  change (List.last (a :: b :: cs) d) with (List.last (b :: cs) d).
  by apply IH.
Qed.

Lemma path_sum_snoc rest : forall acc p q,
  path_sum acc p (rest ++ [q])
  = n_add (path_sum acc p rest)
          (distance (List.last rest p).1 (List.last rest p).2 q.1 q.2).
Proof.
  induction rest as [|r rest IH]; intros acc p q; [done|].
  cbn [app path_sum]. rewrite IH. by rewrite last_cons_default.
Qed.

Lemma poly_length_snoc cs prev q :
  last cs = Some prev ->
  poly_length (cs ++ [q])
  = n_add (poly_length cs) (distance prev.1 prev.2 q.1 q.2).
Proof.
  destruct cs as [|p rest]; [done|]. intros Hlast. cbn [app poly_length].
  rewrite path_sum_snoc.
  replace (List.last rest p) with prev; [done|].
  rewrite <- (last_cons_default rest p p). symmetry.
  by apply last_default_Some.
Qed.

Lemma seg_init_greedy target p0 : greedy_inv target p0 seg_init.
Proof.
  split; cbn; first [done | intros; lia | constructor].
Qed.

Lemma loop_body_greedy target prev pt2 st :
  greedy_inv target prev st ->
  greedy_inv target pt2 (loop_body target prev pt2 false st).
Proof.
  intros [Hlast Hcl Hopen Hreached Hfirst].
  pose proof (eff_nonempty _ _ Hlast) as Hne.
  rewrite loop_body_cases, orb_false_r.
  assert (poly_length (eff st prev ++ [pt2])
          = n_add (current_length st) (distance prev.1 prev.2 pt2.1 pt2.2))
    as Hlen by (rewrite Hcl; by apply poly_length_snoc).
  assert (forall k, 2 <= k < length (eff st prev ++ [pt2]) ->
            n_geb (poly_length (take k (eff st prev ++ [pt2]))) target = false)
    as Hprefix.
  { intros k Hk. rewrite length_app in Hk. cbn in Hk.
    rewrite take_app_le by lia. apply Hopen. lia. }
  destruct (n_geb _ target) eqn:Hcut.
  - set (st' := SegState _ _ [pt2] n_zero).
    assert (eff st' pt2 = [pt2]) as Heff by done.
    split; rewrite ?Heff; subst st'; cbn [segments current_length].
    + done.
    + done.
    + intros k Hk. cbn in Hk. lia.
    + apply Forall_app. split; [done|]. constructor; [|constructor].
      by rewrite Hlen.
    + apply Forall_app. split; [done|]. by constructor.
  - assert (eff (SegState (segments st) (segment_points st)
                   (eff st prev ++ [pt2])
                   (n_add (current_length st)
                      (distance prev.1 prev.2 pt2.1 pt2.2))) pt2
            = eff st prev ++ [pt2]) as Heff.
    { unfold eff at 1. cbn [current_segment]. by destruct (eff st prev). }
    split; rewrite ?Heff; cbn [segments current_length]; try done.
    + by rewrite last_snoc.
    + intros k Hk.
      destruct (decide (k < length (eff st prev ++ [pt2]))) as [Hlt|Hge].
      * apply Hprefix. lia.
      * rewrite take_ge by lia. by rewrite Hlen.
Qed.

(** The last iteration stores the segment whatever its length. *)
Lemma loop_body_greedy_last target prev pt2 st :
  greedy_inv target prev st ->
  let r := loop_body target prev pt2 true st in
  exists s, segments r = segments st ++ [s]
    /\ last s = Some pt2
    /\ Forall (fun s => n_geb (poly_length s) target = true) (segments st)
    /\ Forall (fun s => forall k, 2 <= k < length s ->
                 n_geb (poly_length (take k s)) target = false) (segments r).
Proof.
  intros [Hlast Hcl Hopen Hreached Hfirst]. cbn zeta.
  rewrite loop_body_cases, orb_true_r. cbn [segments].
  eexists. split; [done|]. split; [by rewrite last_snoc|]. split; [done|].
  apply Forall_app. split; [done|]. constructor; [|constructor].
  intros k Hk. rewrite length_app in Hk. cbn in Hk.
  rewrite take_app_le by lia. apply Hopen. lia.
Qed.

Lemma walk_greedy target rest : forall prev st,
  rest <> [] ->
  greedy_inv target prev st ->
  let r := walk target prev rest st in
  (forall i s, segments r !! i = Some s -> S i < length (segments r) ->
     n_geb (poly_length s) target = true)
  /\ Forall (fun s => forall k, 2 <= k < length s ->
               n_geb (poly_length (take k s)) target = false) (segments r).
Proof.
  induction rest as [|pt2 rest IH]; intros prev st Hne Hinv; [done|].
  cbn [walk]. destruct rest as [|pt3 rest].
  - cbn [walk no_more].
    destruct (loop_body_greedy_last target prev pt2 st Hinv)
      as (s & Hsegs & _ & Hreached & Hfirst).
    cbn zeta in *. split; [|done].
    intros i s' Hs' Hi. rewrite Hsegs in Hs', Hi.
    rewrite length_app in Hi. cbn in Hi.
    rewrite lookup_app_l in Hs' by lia.
    by apply (proj1 (Forall_lookup _ _) Hreached i s').
  - apply IH; [done|]. cbn [no_more]. by apply loop_body_greedy.
Qed.

Lemma seg_loop_greedy (track : list (@point num)) target :
  (forall i s, segments (seg_loop track target) !! i = Some s ->
     S i < length (segments (seg_loop track target)) ->
     n_geb (poly_length s) target = true)
  /\ Forall (fun s => forall k, 2 <= k < length s ->
               n_geb (poly_length (take k s)) target = false)
            (segments (seg_loop track target)).
Proof.
  destruct track as [|p0 rest].
  - split; [intros i s Hs; by destruct i|constructor].
  - destruct rest as [|p1 rest].
    + split; [intros i s Hs; by destruct i|constructor].
    + rewrite seg_loop_walk.
      apply (walk_greedy target (p1 :: rest) p0 seg_init); [done|].
      apply seg_init_greedy.
Qed.

(** X3: Every segment but the last has reached the target length, and none
    had reached it one point earlier: the loop cuts at the first point at
    which the accumulated length is at least the target. *)
Theorem segments_are_greedy_cuts (track : list (@point num)) target i s :
  segments (seg_loop track target) !! i = Some s ->
  (S i < length (segments (seg_loop track target)) ->
     n_geb (poly_length s) target = true)
  /\ forall k, 2 <= k < length s ->
       n_geb (poly_length (take k s)) target = false.
Proof.
  intros Hs. destruct (seg_loop_greedy track target) as [Hreached Hfirst].
  split; [by apply Hreached|].
  by apply (proj1 (Forall_lookup _ _) Hfirst i s).
Qed.

Lemma reconstruct_length segs :
  Forall (fun s => 2 <= length s) segs ->
  segs <> [] ->
  length (reconstruct segs) = S (sum_list (map (fun s => length s - 1) segs)).
Proof.
  intros Hall Hne. destruct segs as [|s segs]; [done|].
  apply Forall_cons in Hall as [Hs Hall]. cbn [reconstruct map sum_list].
  rewrite length_app.
  assert (length (concat (map (drop 1) segs))
          = sum_list (map (fun s => length s - 1) segs)) as ->.
  { clear Hne Hs. induction segs as [|t segs IH]; [done|].
    apply Forall_cons in Hall as [Ht Hall]. cbn [map concat sum_list].
    rewrite length_app, length_drop, IH by done. done. }
  cbn in Hs. unfold Datatypes.id. lia.
Qed.

(** X1: Every step of the track lies in exactly one retained segment: the
    segments have at least two points each, and their step counts add up to
    the number of steps of the track. *)
Theorem segments_partition_steps (track : list (@point num)) target :
  Forall (fun s => 2 <= length s) (segments (seg_loop track target))
  /\ sum_list (map (fun s => length s - 1) (segments (seg_loop track target)))
     = length track - 1.
Proof.
  destruct (decide (length track < 2)) as [Hshort|Hlong].
  - rewrite seg_loop_short by done. cbn. split; [constructor|lia].
  - destruct (seg_loop_spec track target) as (Hrec & _ & _ & Hlen & Hcount & _);
      [lia|].
    split; [done|].
    assert (segments (seg_loop track target) <> []) as Hne
      by (intros Heq; rewrite Heq in Hcount; cbn in Hcount; lia).
    pose proof (reconstruct_length _ Hlen Hne) as Hl.
    rewrite Hrec in Hl. lia.
Qed.

(** X2: The segments cover the track from its first point to its last. *)
Theorem segments_cover_track (track : list (@point num)) target :
  2 <= length track ->
  exists first_seg last_seg,
    head (segments (seg_loop track target)) = Some first_seg
    /\ last (segments (seg_loop track target)) = Some last_seg
    /\ head first_seg = head track
    /\ last last_seg = last track.
Proof.
  intros Htrack.
  destruct (seg_loop_spec track target Htrack) as (Hrec & _ & _ & Hlen & Hcount & _).
  generalize dependent (segments (seg_loop track target)).
  intros all_segs Hrec Hlen Hcount.
  destruct all_segs as [|s segs _] using rev_ind; [cbn in Hcount; lia|].
  apply Forall_app in Hlen as [Hinit Hs]. apply Forall_cons in Hs as [Hs _].
  destruct segs as [|s0 segs'].
  - exists s, s. cbn in Hrec. rewrite app_nil_r in Hrec. by rewrite Hrec.
  - exists s0, s. split; [done|]. split; [by rewrite last_snoc|].
    rewrite <- Hrec. split.
    + cbn. apply Forall_cons in Hinit as [Hs0 _].
      destruct s0; [cbn in Hs0; lia|done].
    + rewrite reconstruct_snoc by done.
      destruct s as [|a [|b s]]; [cbn in Hs; lia..|].
      cbn [drop].
      change (a :: b :: s) with ([a] ++ b :: s).
      rewrite !last_app.
      destruct (last (b :: s)) eqn:Hb; [done|]. by apply last_None in Hb.
Qed.

End SegmentationMore.

Section ExactMore.
Local Open Scope R_scope.
Implicit Types (p q prev : @point R) (rest : list (@point R)) (st : @seg_state R).

Lemma total_length_snoc segs s :
  total_length (segs ++ [s]) = total_length segs + poly_length s.
Proof.
  unfold total_length. induction segs as [|t segs IH]; cbn; [lra|].
  cbn in IH. rewrite IH. lra.
Qed.

Lemma loop_body_total T prev pt2 is_last st :
  greedy_inv T prev st ->
  total_length (segments (loop_body T prev pt2 is_last st))
  + current_length (loop_body T prev pt2 is_last st)
  = total_length (segments st) + current_length st
    + distance prev.1 prev.2 pt2.1 pt2.2.
Proof.
  intros [Hlast Hcl _ _ _]. rewrite loop_body_cases.
  destruct (_ || _); cbn [segments current_length].
  - rewrite total_length_snoc, (poly_length_snoc _ prev) by done.
    rewrite <- Hcl. cbn. lra.
  - cbn. lra.
Qed.

Lemma walk_total T rest : forall prev st acc,
  rest <> [] ->
  greedy_inv T prev st ->
  total_length (segments st) + current_length st = acc ->
  total_length (segments (walk T prev rest st)) = path_sum acc prev rest.
Proof.
  induction rest as [|pt2 rest IH]; intros prev st acc Hne Hinv Hacc; [done|].
  cbn [walk path_sum]. destruct rest as [|pt3 rest].
  - cbn [walk path_sum no_more].
    pose proof (loop_body_total T prev pt2 true st Hinv) as Hstep.
    rewrite loop_body_cases, orb_true_r in Hstep |- *.
    cbn [segments current_length] in Hstep |- *. cbn in Hstep |- *. lra.
  - apply IH; [done|by apply loop_body_greedy|].
    cbn [no_more]. rewrite loop_body_total by done. cbn. lra.
Qed.

(** X4: Without rounding, the lengths of the retained segments add up to the
    length of the track. *)
Theorem segment_lengths_add_up (track : list (@point R)) (target : R) :
  total_length (segments (seg_loop track target)) = track_length track.
Proof.
  destruct track as [|p0 [|p1 rest]]; [done|done|].
  rewrite seg_loop_walk, track_length_path_sum.
  apply walk_total; [done|apply seg_init_greedy|]. cbn. lra.
Qed.

Lemma path_sum_ge_last_step rest : forall acc prev,
  acc + last_step prev rest <= path_sum acc prev rest.
Proof.
  induction rest as [|p rest IH]; intros acc prev; cbn [path_sum last_step].
  - cbn. lra.
  - destruct rest as [|q rest].
    + cbn. lra.
    + specialize (IH (n_add acc (distance prev.1 prev.2 p.1 p.2)) p).
      pose proof (distance_nonneg prev.1 prev.2 p.1 p.2). cbn in *. lra.
Qed.

(** X5: Without rounding and on a track of positive length, the loop retains
    at most one segment more than the target count. *)
Theorem exact_count_at_most_one_over (track : list (@point R)) (num_segments : Z) :
  (2 <= length track)%nat ->
  (0 < num_segments)%Z ->
  0 < track_length track ->
  exists r, segmentation track num_segments = Ok r
            /\ (Z.of_nat (length (segments r)) <= num_segments + 1)%Z.
Proof.
  intros Hlen HN HL. eexists.
  split; [by apply (segmentation_runs track num_segments (IZR num_segments))|].
  destruct track as [|p0 rest]; [cbn in Hlen; lia|].
  assert (rest <> []) as Hrest by (destruct rest; [cbn in Hlen; lia|done]).
  revert HL. rewrite seg_loop_walk, track_length_path_sum.
  set (L := path_sum n_zero p0 rest). intros HL.
  set (T := n_div L (IZR num_segments)).
  pose proof (walk_exact T rest p0 seg_init 0 Hrest) as Hw.
  cbn [seg_init current_length segments length] in Hw.
  assert (0 <= 0) as H0 by lra. specialize (Hw H0). clear H0.
  assert (INR 0 * T + 0 <= 0) as H0 by (cbn; lra). specialize (Hw H0). clear H0.
  change (path_sum 0 p0 rest) with L in Hw.
  set (k := length (segments (walk T p0 rest seg_init))) in *.
  assert (0 <= last_step p0 rest) as Hd.
  { clear. revert p0. induction rest as [|p rest IH]; intros p0; cbn; [lra|].
    destruct rest; [apply distance_nonneg|apply IH]. }
  assert (0 < IZR num_segments) as HNR by (by apply IZR_lt).
  assert (L = T * IZR num_segments) as HLT.
  { subst T. cbn. field. lra. }
  destruct (decide (Z.of_nat k <= num_segments + 1)%Z) as [|Hgt]; [done|exfalso].
  assert (IZR num_segments + 2 <= INR k) as Hk.
  { rewrite INR_IZR_INZ, <- plus_IZR. apply IZR_le. lia. }
  assert (0 < T) as HT.
  { subst T. cbn. apply Rmult_lt_0_compat; [done|].
    by apply Rinv_0_lt_compat. }
  clearbody L T k. nra.
Qed.

End ExactMore.

(** ** More of the order of float64 *)

Lemma SFltb_trans a b c :
  SFltb a b = true -> SFltb b c = true -> SFltb a c = true.
Proof.
  unfold SFltb.
  destruct a as [sa|sa| |sa ma ea], b as [sb|sb| |sb mb eb],
           c as [sc|sc| |sc mc ec]; cbn;
    try destruct sa; try destruct sb; try destruct sc; cbn; try done;
    change (Pos.compare_cont Eq) with Pos.compare;
    intros Hab Hbc; cmp_cases; subst; cbn in *; try done; try lia.
Qed.

Lemma SFleb_ltb_trans a b c :
  SFleb a b = true -> SFltb b c = true -> SFltb a c = true.
Proof.
  unfold SFleb, SFltb.
  destruct a as [sa|sa| |sa ma ea], b as [sb|sb| |sb mb eb],
           c as [sc|sc| |sc mc ec]; cbn;
    try destruct sa; try destruct sb; try destruct sc; cbn; try done;
    change (Pos.compare_cont Eq) with Pos.compare;
    intros Hab Hbc; cmp_cases; subst; cbn in *; try done; try lia.
Qed.

Lemma SFltb_leb_trans a b c :
  SFltb a b = true -> SFleb b c = true -> SFltb a c = true.
Proof.
  unfold SFleb, SFltb.
  destruct a as [sa|sa| |sa ma ea], b as [sb|sb| |sb mb eb],
           c as [sc|sc| |sc mc ec]; cbn;
    try destruct sa; try destruct sb; try destruct sc; cbn; try done;
    change (Pos.compare_cont Eq) with Pos.compare;
    intros Hab Hbc; cmp_cases; subst; cbn in *; try done; try lia.
Qed.

Lemma SFltb_irrefl a : SFltb a a = false.
Proof.
  unfold SFltb. destruct a as [s|s| |s m e]; cbn; try done.
  - by destruct s.
  - rewrite Z.compare_refl.
    change (Pos.compare_cont Eq m m) with (Pos.compare m m).
    rewrite Pos.compare_refl. by destruct s.
Qed.

Lemma SFltb_not_nan a b :
  SFltb a b = true -> a <> S754_nan /\ b <> S754_nan.
Proof.
  unfold SFltb. destruct a as [sa|sa| |sa ma ea], b as [sb|sb| |sb mb eb];
    cbn; try done.
  all: by destruct sa.
Qed.

Lemma SFleb_ltb_false a b : SFleb a b = true -> SFltb b a = false.
Proof.
  unfold SFleb, SFltb. rewrite (SFcompare_antisym a b).
  by destruct (SFcompare a b) as [[]|].
Qed.

Lemma fltb_trans x y z :
  PrimFloat.ltb x y = true -> PrimFloat.ltb y z = true ->
  PrimFloat.ltb x z = true.
Proof. rewrite !FloatAxioms.ltb_spec. apply SFltb_trans. Qed.

Lemma fleb_ltb_trans x y z :
  PrimFloat.leb x y = true -> PrimFloat.ltb y z = true ->
  PrimFloat.ltb x z = true.
Proof.
  rewrite !FloatAxioms.ltb_spec, FloatAxioms.leb_spec. apply SFleb_ltb_trans.
Qed.

Lemma fltb_leb_trans x y z :
  PrimFloat.ltb x y = true -> PrimFloat.leb y z = true ->
  PrimFloat.ltb x z = true.
Proof.
  rewrite !FloatAxioms.ltb_spec, FloatAxioms.leb_spec. apply SFltb_leb_trans.
Qed.

Lemma fltb_irrefl x : PrimFloat.ltb x x = false.
Proof. rewrite FloatAxioms.ltb_spec. apply SFltb_irrefl. Qed.

Lemma fltb_not_nan x y :
  PrimFloat.ltb x y = true -> is_nan x = false /\ is_nan y = false.
Proof.
  rewrite FloatAxioms.ltb_spec, !is_nan_false. apply SFltb_not_nan.
Qed.

Lemma fleb_ltb_false x y :
  PrimFloat.leb x y = true -> PrimFloat.ltb y x = false.
Proof.
  rewrite FloatAxioms.ltb_spec, FloatAxioms.leb_spec. apply SFleb_ltb_false.
Qed.

Lemma fltb_nan_l x : is_nan x = true -> forall y, PrimFloat.ltb x y = false.
Proof.
  intros Hx y. destruct (PrimFloat.ltb x y) eqn:Hlt; [|done].
  apply fltb_not_nan in Hlt as [Hx' _]. congruence.
Qed.

Lemma fltb_nan_r y : is_nan y = true -> forall x, PrimFloat.ltb x y = false.
Proof.
  intros Hy x. destruct (PrimFloat.ltb x y) eqn:Hlt; [|done].
  apply fltb_not_nan in Hlt as [_ Hy']. congruence.
Qed.

(** ** The attribution *)

Section AttributionMore.
Context {num : Type} `{NumOps num}.
Implicit Types (st : @attr_state num) (e : option string * num)
  (pts : list (@point num)) (segs : list (list (@point num)))
  (tel : string -> list (@sample num)).

(** *** One entry per segment *)

Lemma segment_update_lengths driver driver_tel pts st i :
  length (segment_fastest_driver (segment_update driver driver_tel pts st i))
  = length (segment_fastest_driver st)
  /\ length (segment_fastest_speed (segment_update driver driver_tel pts st i))
     = length (segment_fastest_speed st).
Proof.
  unfold segment_update. destruct (n_gtb _ _); [|done].
  cbn. by rewrite !length_insert.
Qed.

Lemma fold_segment_update_lengths driver driver_tel pts js : forall st,
  length (segment_fastest_driver
            (fold_left (segment_update driver driver_tel pts) js st))
  = length (segment_fastest_driver st)
  /\ length (segment_fastest_speed
               (fold_left (segment_update driver driver_tel pts) js st))
     = length (segment_fastest_speed st).
Proof.
  induction js as [|j js IH]; intros st; [done|]. cbn [fold_left].
  destruct (IH (segment_update driver driver_tel pts st j)) as [-> ->].
  apply segment_update_lengths.
Qed.

Lemma driver_pass_lengths tel segs pts st d :
  length (segment_fastest_driver (driver_pass tel segs pts st d))
  = length (segment_fastest_driver st)
  /\ length (segment_fastest_speed (driver_pass tel segs pts st d))
     = length (segment_fastest_speed st).
Proof.
  unfold driver_pass. destruct (tel d); [done|].
  apply fold_segment_update_lengths.
Qed.

Lemma attribution_lengths all_drivers tel segs pts :
  length (segment_fastest_driver (attribution all_drivers tel segs pts))
  = length segs
  /\ length (segment_fastest_speed (attribution all_drivers tel segs pts))
     = length segs.
Proof.
  unfold attribution.
  assert (forall st,
    length (segment_fastest_driver
              (fold_left (driver_pass tel segs pts) all_drivers st))
    = length (segment_fastest_driver st)
    /\ length (segment_fastest_speed
                 (fold_left (driver_pass tel segs pts) all_drivers st))
       = length (segment_fastest_speed st)) as Hfold.
  { induction all_drivers as [|d ds IH]; intros st; [done|]. cbn [fold_left].
    destruct (IH (driver_pass tel segs pts st d)) as [-> ->].
    apply driver_pass_lengths. }
  destruct (Hfold (attr_init segs)) as [-> ->].
  cbn. by rewrite !length_replicate.
Qed.

(** X6: The two result lists keep one entry per segment. *)
Theorem one_entry_per_segment all_drivers tel segs pts :
  length (segment_fastest_driver (attribution all_drivers tel segs pts))
  = length segs
  /\ length (segment_fastest_speed (attribution all_drivers tel segs pts))
     = length segs.
Proof. intros. eapply attribution_lengths; eauto. Qed.

Lemma attr_state_eq (a b : @attr_state num) n :
  length (segment_fastest_driver a) = n ->
  length (segment_fastest_speed a) = n ->
  length (segment_fastest_driver b) = n ->
  length (segment_fastest_speed b) = n ->
  (forall i, i < n -> entry_of a i = entry_of b i) ->
  a = b.
Proof.
  destruct a as [da va], b as [db vb]. cbn. intros Hda Hva Hdb Hvb Hent.
  assert (forall i, da !! i = db !! i /\ va !! i = vb !! i) as Hall.
  { intros i. destruct (decide (i < n)) as [Hi|Hi].
    - specialize (Hent i Hi). unfold entry_of in Hent. cbn in Hent.
      destruct (lookup_lt_is_Some_2 da i) as [x1 Hx1]; [lia|].
      destruct (lookup_lt_is_Some_2 va i) as [x2 Hx2]; [lia|].
      destruct (lookup_lt_is_Some_2 db i) as [x3 Hx3]; [lia|].
      destruct (lookup_lt_is_Some_2 vb i) as [x4 Hx4]; [lia|].
      rewrite Hx1, Hx2, Hx3, Hx4 in Hent |- *. by injection Hent as -> ->.
    - rewrite !lookup_ge_None_2 by lia. done. }
  f_equal; apply list_eq; intros i; by destruct (Hall i).
Qed.

(** *** Drivers without data *)

Lemma fold_driver_pass_filter tel segs pts ds : forall st,
  fold_left (driver_pass tel segs pts) (List.filter (has_data tel) ds) st
  = fold_left (driver_pass tel segs pts) ds st.
Proof.
  induction ds as [|d ds IH]; intros st; [done|].
  cbn [List.filter fold_left]. unfold has_data at 1.
  destruct (tel d) as [|r t] eqn:Ht.
  - rewrite IH. f_equal. unfold driver_pass. by rewrite Ht.
  - cbn [fold_left]. by rewrite IH.
Qed.

(** X8: A driver with no lap or no telemetry leaves no trace: dropping such
    drivers from the processing order changes nothing. *)
Theorem attribution_skips_drivers_without_data all_drivers tel segs pts :
  attribution (List.filter (has_data tel) all_drivers) tel segs pts
  = attribution all_drivers tel segs pts.
Proof. unfold attribution. apply fold_driver_pass_filter. Qed.

(** *** Where a recorded entry comes from *)

Lemma entry_fold_provenance tel mid ds : forall e,
  fold_left (entry_update tel mid) ds e = e
  \/ exists d, d ∈ ds /\ tel d <> []
       /\ fold_left (entry_update tel mid) ds e
          = (Some d, nearest_speed (tel d) mid).
Proof.
  induction ds as [|d ds IH]; intros e; [by left|]. cbn [fold_left].
  destruct (IH (entry_update tel mid e d)) as [Hsame|(d' & Hd' & Ht & Hrec)].
  - rewrite Hsame.
    destruct (telemetry_empty_or_not tel d) as [Ht|Ht].
    + left. by apply entry_update_skip.
    + rewrite entry_update_data by done.
      destruct (n_gtb _ e.2); [|by left].
      right. exists d. split; [apply list_elem_of_here|done].
  - right. exists d'. split; [by apply list_elem_of_further|done].
Qed.

Lemma attribution_provenance all_drivers tel segs pts i :
  i < length segs ->
  entry_of (attribution all_drivers tel segs pts) i = Some (None, n_zero)
  \/ exists d r,
       d ∈ all_drivers /\ r ∈ tel d
       /\ entry_of (attribution all_drivers tel segs pts) i
          = Some (Some d, nearest_speed (tel d) (nth i pts origin))
       /\ nearest_speed (tel d) (nth i pts origin) = Speed r.
Proof.
  intros Hi. rewrite attribution_entry by done.
  destruct (entry_fold_provenance tel (nth i pts origin) all_drivers
              (None, n_zero)) as [->|(d & Hd & Ht & ->)]; [by left|].
  right. destruct (nearest_speed_in_telemetry (tel d) (nth i pts origin) Ht)
    as (r & Hr & Hspeed).
  by exists d, r.
Qed.

(** *** Colours *)

Lemma fold_driver_pass_colors driver_color tel segs pts ds : forall st colors,
  (fold_left (driver_pass_colors driver_color tel segs pts) ds (st, colors)).1
  = fold_left (driver_pass tel segs pts) ds st.
Proof.
  induction ds as [|d ds IH]; intros st colors; [done|]. cbn [fold_left].
  unfold driver_pass_colors at 2, driver_pass at 2.
  destruct (tel d) as [|r t]; [apply IH|]. cbn [fst snd]. apply IH.
Qed.

Lemma driver_pass_colors_grow driver_color tel segs pts ds : forall st colors d,
  is_Some (colors !! d) ->
  is_Some ((fold_left (driver_pass_colors driver_color tel segs pts) ds
              (st, colors)).2 !! d).
Proof.
  induction ds as [|d' ds IH]; intros st colors d Hd; [done|]. cbn [fold_left].
  unfold driver_pass_colors at 2.
  destruct (tel d') as [|r t]; [by apply IH|]. cbn [fst snd]. apply IH.
  destruct (decide (d' = d)) as [->|Hne].
  - rewrite lookup_insert_eq. by eexists.
  - by rewrite lookup_insert_ne.
Qed.

Lemma driver_pass_colors_has driver_color tel segs pts ds : forall st colors d,
  d ∈ ds -> tel d <> [] ->
  is_Some ((fold_left (driver_pass_colors driver_color tel segs pts) ds
              (st, colors)).2 !! d).
Proof.
  induction ds as [|d' ds IH]; intros st colors d Hd Ht;
    [by apply elem_of_nil in Hd|].
  cbn [fold_left]. apply elem_of_cons in Hd as [->|Hd].
  - unfold driver_pass_colors at 2.
    destruct (tel d') as [|r t]; [done|]. cbn [fst snd].
    apply driver_pass_colors_grow. rewrite lookup_insert_eq. by eexists.
  - destruct (driver_pass_colors driver_color tel segs pts (st, colors) d')
      as [st' colors']. by apply IH.
Qed.

(** X13: The loop with the colours computes the same attribution, and every
    driver it records for a segment has a colour: line 145 never raises
    KeyError, and every segment gets a colour. *)
Theorem every_recorded_driver_has_a_colour driver_color all_drivers tel segs pts :
  let '(st, driver_colors) :=
    attribution_colors driver_color all_drivers tel segs pts in
  st = attribution all_drivers tel segs pts
  /\ forall i, i < length segs ->
       exists d colour,
         segment_fastest_driver st !! i = Some d
         /\ segment_color driver_colors d = Some colour.
Proof.
  unfold attribution_colors.
  pose proof (fold_driver_pass_colors driver_color tel segs pts all_drivers
                (attr_init segs) ∅) as Hst.
  pose proof (driver_pass_colors_has driver_color tel segs pts all_drivers
                (attr_init segs) ∅) as Hcol.
  destruct (fold_left _ all_drivers (attr_init segs, ∅)) as [st colors].
  cbn [fst snd] in Hst, Hcol. fold (attribution all_drivers tel segs pts) in Hst.
  split; [done|]. intros i Hi. rewrite Hst.
  destruct (attribution_provenance all_drivers tel segs pts i Hi)
    as [Hent|(d & r & Hd & Hr & Hent & _)];
    apply entry_of_Some in Hent as [Hdrv _]; cbn in Hdrv.
  - exists None, "gray". done.
  - destruct (Hcol d Hd) as [colour Hcolour].
    { intros Hnil. rewrite Hnil in Hr. by apply elem_of_nil in Hr. }
    by exists (Some d), colour.
Qed.

End AttributionMore.

(** ** Attribution over float64 *)

Section AttrFloat.
Implicit Types (e : option string * float)
  (pts : list (@point float)) (segs : list (list (@point float)))
  (tel : string -> list (@sample float)).

Lemma entry_update_cases tel mid e d :
  entry_update tel mid e d = e
  \/ (tel d <> []
      /\ PrimFloat.ltb e.2 (nearest_speed (tel d) mid) = true
      /\ entry_update tel mid e d = (Some d, nearest_speed (tel d) mid)).
Proof.
  destruct (telemetry_empty_or_not tel d) as [Ht|Ht].
  - left. by apply entry_update_skip.
  - rewrite entry_update_data by done.
    destruct (n_gtb (nearest_speed (tel d) mid) e.2) eqn:Hgt; [|by left].
    right. done.
Qed.

Lemma entry_update_settled tel mid e d :
  settled e -> settled (entry_update tel mid e d).
Proof.
  intros Hq. destruct (entry_update_cases tel mid e d) as [->|(_ & Hlt & ->)];
    [done|].
  right. split; [by eexists|]. cbn.
  destruct Hq as [[_ H0]|[_ Hpos]].
  - by rewrite <- H0.
  - by eapply fltb_trans.
Qed.

Lemma entry_fold_settled tel mid ds : forall e,
  settled e -> settled (fold_left (entry_update tel mid) ds e).
Proof.
  induction ds as [|d ds IH]; intros e Hq; [done|]. cbn [fold_left].
  by apply IH, entry_update_settled.
Qed.

Lemma entry_fold_monotone tel mid ds : forall e,
  (fold_left (entry_update tel mid) ds e).2 = e.2
  \/ PrimFloat.ltb e.2 (fold_left (entry_update tel mid) ds e).2 = true.
Proof.
  induction ds as [|d ds IH]; intros e; [by left|]. cbn [fold_left].
  destruct (IH (entry_update tel mid e d)) as [Heq|Hlt];
    destruct (entry_update_cases tel mid e d) as [Hsame|(_ & Hup & Hrec)].
  - left. by rewrite Heq, Hsame.
  - right. rewrite Heq, Hrec. cbn. done.
  - right. by rewrite Hsame in Hlt |- *.
  - right. rewrite Hrec in Hlt |- *. cbn in Hlt. by eapply fltb_trans.
Qed.

Lemma entry_fold_upper tel mid ds : forall e d,
  d ∈ ds -> tel d <> [] ->
  PrimFloat.ltb (fold_left (entry_update tel mid) ds e).2
                (nearest_speed (tel d) mid) = false.
Proof.
  induction ds as [|d' ds IH]; intros e d Hd Ht;
    [by apply elem_of_nil in Hd|].
  cbn [fold_left]. apply elem_of_cons in Hd as [->|Hd]; [|by apply IH].
  assert (PrimFloat.ltb (entry_update tel mid e d').2
                        (nearest_speed (tel d') mid) = false) as Hnow.
  { rewrite entry_update_data by done.
    destruct (n_gtb (nearest_speed (tel d') mid) e.2) eqn:Hgt; [|done].
    cbn. apply fltb_irrefl. }
  destruct (entry_fold_monotone tel mid ds (entry_update tel mid e d'))
    as [->|Hlt]; [done|].
  destruct (PrimFloat.ltb (fold_left _ ds _).2 _) eqn:Hcontra; [|done].
  by rewrite (fltb_trans _ _ _ Hlt Hcontra) in Hnow.
Qed.

(** *** The sample that is read *)

Lemma is_nan_fill_missing (x : float) : is_nan (fill_missing x) = false.
Proof.
  unfold fill_missing. cbn. destruct (is_nan x) eqn:Hx; [reflexivity|done].
Qed.

(** [argmin_from] keeps the index of the first occurrence of the least
    value seen so far. *)
Lemma argmin_from_first_least (ys : list float) : forall pre best_idx best,
  Forall (fun y => is_nan y = false) ys ->
  is_nan best = false ->
  pre !! best_idx = Some best ->
  (forall k x, pre !! k = Some x -> PrimFloat.leb best x = true) ->
  (forall k x, k < best_idx -> pre !! k = Some x ->
     PrimFloat.ltb best x = true) ->
  exists y,
    (pre ++ ys) !! argmin_from best_idx best (length pre) ys = Some y
    /\ (forall k x, (pre ++ ys) !! k = Some x -> PrimFloat.leb y x = true)
    /\ (forall k x, k < argmin_from best_idx best (length pre) ys ->
          (pre ++ ys) !! k = Some x -> PrimFloat.ltb y x = true).
Proof.
  induction ys as [|y ys IH]; intros pre best_idx best Hys Hbest Hidx Hle Hlt.
  - cbn [argmin_from]. rewrite app_nil_r. by exists best.
  - apply Forall_cons in Hys as [Hy Hys]. cbn [argmin_from].
    replace (pre ++ y :: ys) with ((pre ++ [y]) ++ ys)
      by (by rewrite <- app_assoc).
    replace (S (length pre)) with (length (pre ++ [y]))
      by (rewrite length_app; cbn; lia).
    destruct (n_ltb y best) eqn:Hcmp; cbn in Hcmp.
    + apply IH; try done.
      * rewrite lookup_app_r by lia. by rewrite Nat.sub_diag.
      * intros k x Hk. apply lookup_app_Some in Hk as [Hk|[_ Hk]].
        -- apply fltb_leb. eapply fltb_leb_trans; [exact Hcmp|by eapply Hle].
        -- apply list_lookup_singleton_Some in Hk as [_ <-]. by apply fleb_refl.
      * intros k x Hklt Hk. rewrite lookup_app_l in Hk by done.
        eapply fltb_leb_trans; [exact Hcmp|by eapply Hle].
    + apply IH; try done.
      * rewrite lookup_app_l; [done|]. by eapply lookup_lt_Some.
      * intros k x Hk. apply lookup_app_Some in Hk as [Hk|[_ Hk]].
        -- by eapply Hle.
        -- apply list_lookup_singleton_Some in Hk as [_ <-].
           by apply fleb_total.
      * intros k x Hklt Hk. apply Hlt with k; [done|].
        rewrite lookup_app_l in Hk; [done|].
        apply lookup_lt_Some in Hidx. lia.
Qed.

(** [np.argmin] on the distances: the first index of the least distance, a
    missing distance counting as +inf. *)
Lemma argmin_first_least (xs : list float) k :
  argmin xs = Some k ->
  exists x,
    xs !! k = Some x
    /\ (forall k' x', xs !! k' = Some x' ->
          PrimFloat.leb (fill_missing x) (fill_missing x') = true)
    /\ (forall k' x', k' < k -> xs !! k' = Some x' ->
          PrimFloat.ltb (fill_missing x) (fill_missing x') = true).
Proof.
  unfold argmin. destruct (forallb n_isnan xs); [done|].
  destruct xs as [|x0 xs]; [done|]. cbn [map]. intros [= <-].
  destruct (argmin_from_first_least (map fill_missing xs) [fill_missing x0]
              0 (fill_missing x0)) as (y & Hy & Hle & Hlt).
  - apply Forall_forall. intros y Hy.
    apply list_elem_of_fmap in Hy as (x & -> & _). apply is_nan_fill_missing.
  - apply is_nan_fill_missing.
  - done.
  - intros k x Hk. apply list_lookup_singleton_Some in Hk as [_ <-].
    apply fleb_refl, is_nan_fill_missing.
  - intros k x Hk. lia.
  - cbn [length app] in Hy, Hle, Hlt.
    change (fill_missing x0 :: map fill_missing xs)
      with (map fill_missing (x0 :: xs)) in Hy, Hle, Hlt.
    rewrite list_lookup_fmap in Hy.
    destruct ((x0 :: xs) !! argmin_from 0 (fill_missing x0) 1
                                 (map fill_missing xs)) as [x|] eqn:Hx;
      [|done].
    cbn in Hy. injection Hy as <-. exists x. split; [done|]. split.
    + intros k' x' Hk'. apply (Hle k'). by rewrite list_lookup_fmap, Hk'.
    + intros k' x' Hlt' Hk'. apply (Hlt k'); [done|].
      by rewrite list_lookup_fmap, Hk'.
Qed.

(** Lines 118-122 read the speed of the first of the samples nearest to
    the midpoint. *)
Lemma nearest_speed_first_nearest
    (driver_tel : list (@sample float)) (mid : @point float) :
  has_position driver_tel mid = true ->
  exists k r,
    driver_tel !! k = Some r
    /\ nearest_speed driver_tel mid = Speed r
    /\ (forall k' r', driver_tel !! k' = Some r' ->
          PrimFloat.leb (fill_missing (sample_distance r mid))
                        (fill_missing (sample_distance r' mid)) = true)
    /\ (forall k' r', k' < k -> driver_tel !! k' = Some r' ->
          PrimFloat.ltb (fill_missing (sample_distance r mid))
                        (fill_missing (sample_distance r' mid)) = true).
Proof.
  unfold has_position, nearest_speed. intros Hpos.
  destruct (argmin (distances driver_tel mid)) as [k|] eqn:Hk.
  2:{ unfold argmin in Hk. destruct driver_tel as [|r0 t]; [done|].
      by destruct (forallb n_isnan (distances (r0 :: t) mid)). }
  destruct (argmin_first_least _ _ Hk) as (x & Hx & Hle & Hlt).
  unfold distances in Hx, Hle, Hlt. rewrite list_lookup_fmap in Hx.
  destruct (driver_tel !! k) as [r|] eqn:Hr; [|done].
  cbn in Hx. injection Hx as <-. exists k, r.
  split; [done|]. split; [|split].
  - apply nth_lookup_Some. by rewrite list_lookup_fmap, Hr.
  - intros k' r' Hk'. apply (Hle k'). by rewrite list_lookup_fmap, Hk'.
  - intros k' r' Hlt' Hk'. apply (Hlt k'); [done|].
    by rewrite list_lookup_fmap, Hk'.
Qed.

Lemma fill_missing_not_nan (x : float) :
  is_nan x = false -> fill_missing x = x.
Proof.
  intros Hx. unfold fill_missing. change (n_isnan x) with (is_nan x).
  by rewrite Hx.
Qed.

Lemma fill_missing_finite (x y : float) :
  PrimFloat.leb (fill_missing x) y = true ->
  PrimFloat.ltb y infinity = true ->
  is_nan x = false.
Proof.
  intros Hle Hlt. pose proof (fleb_ltb_trans _ _ _ Hle Hlt) as Hfin.
  unfold fill_missing in Hfin. cbn in Hfin.
  destruct (is_nan x); [|done]. by rewrite fltb_irrefl in Hfin.
Qed.

(** X7: Whatever is recorded for a segment is either the initial [(None, 0)]
    or a driver of the processing order together with the speed of one of
    that driver's samples, and this sample is the first of the driver's
    samples nearest to the midpoint: no sample is nearer and every earlier
    one is farther, a sample without a position counting as infinitely far,
    as pandas counts it.  When some sample of the driver is at a finite
    distance, so is the one that is read.  Every driver with telemetry has,
    for every midpoint, a sample with a position. *)
Theorem recorded_entry_provenance all_drivers tel segs pts i :
  i < length segs ->
  (forall d j, d ∈ all_drivers -> tel d <> [] -> j < length segs ->
     has_position (tel d) (nth j pts origin) = true) ->
  entry_of (attribution all_drivers tel segs pts) i = Some (None, 0%float)
  \/ exists d k r,
       d ∈ all_drivers /\ tel d !! k = Some r
       /\ entry_of (attribution all_drivers tel segs pts) i
          = Some (Some d, Speed r)
       /\ nearest_speed (tel d) (nth i pts origin) = Speed r
       /\ (forall k' r', tel d !! k' = Some r' ->
             PrimFloat.leb
               (fill_missing (sample_distance r (nth i pts origin)))
               (fill_missing (sample_distance r' (nth i pts origin))) = true)
       /\ (forall k' r', k' < k -> tel d !! k' = Some r' ->
             PrimFloat.ltb
               (fill_missing (sample_distance r (nth i pts origin)))
               (fill_missing (sample_distance r' (nth i pts origin))) = true)
       /\ (forall k' r', tel d !! k' = Some r' ->
             PrimFloat.ltb (sample_distance r' (nth i pts origin)) infinity
             = true ->
             is_nan (sample_distance r (nth i pts origin)) = false).
Proof.
  intros Hi Hpos. rewrite attribution_entry by done.
  destruct (entry_fold_provenance tel (nth i pts origin) all_drivers
              (None, n_zero)) as [->|(d & Hd & Ht & ->)]; [by left|].
  right.
  destruct (nearest_speed_first_nearest (tel d) (nth i pts origin))
    as (k & r & Hr & Hspeed & Hle & Hlt); [by apply Hpos|].
  exists d, k, r. rewrite Hspeed. repeat split; try done.
  intros k' r' Hr' Hfin. eapply fill_missing_finite; [|exact Hfin].
  destruct (fltb_not_nan _ _ Hfin) as [Hnn _].
  rewrite <- (fill_missing_not_nan _ Hnn). by eapply Hle.
Qed.

(** X9: The recorded speed of a segment is not exceeded by the speed that
    any driver with telemetry has at the first of their samples nearest to
    the midpoint (a sample without a position counting as infinitely far, as
    pandas counts it): with the provenance of the entry, it is the maximum of
    those speeds, or the initial 0.  Every driver with telemetry has, for
    every midpoint, a sample with a position. *)
Theorem recorded_speed_is_maximum all_drivers tel segs pts i :
  i < length segs ->
  (forall d j, d ∈ all_drivers -> tel d <> [] -> j < length segs ->
     has_position (tel d) (nth j pts origin) = true) ->
  exists drv v,
    entry_of (attribution all_drivers tel segs pts) i = Some (drv, v)
    /\ forall d, d ∈ all_drivers -> tel d <> [] ->
         PrimFloat.ltb v (nearest_speed (tel d) (nth i pts origin)) = false
         /\ exists k r,
              tel d !! k = Some r
              /\ nearest_speed (tel d) (nth i pts origin) = Speed r
              /\ (forall k' r', tel d !! k' = Some r' ->
                    PrimFloat.leb
                      (fill_missing (sample_distance r (nth i pts origin)))
                      (fill_missing (sample_distance r' (nth i pts origin)))
                    = true)
              /\ (forall k' r', k' < k -> tel d !! k' = Some r' ->
                    PrimFloat.ltb
                      (fill_missing (sample_distance r (nth i pts origin)))
                      (fill_missing (sample_distance r' (nth i pts origin)))
                    = true)
              /\ PrimFloat.ltb v (Speed r) = false.
Proof.
  intros Hi Hpos. rewrite attribution_entry by done.
  destruct (fold_left _ all_drivers (None, n_zero)) as [drv v] eqn:Hfold.
  exists drv, v. split; [done|]. intros d Hd Ht.
  pose proof (entry_fold_upper tel (nth i pts origin) all_drivers
                (None, n_zero) d Hd Ht) as Hup.
  rewrite Hfold in Hup. cbn [snd] in Hup. split; [exact Hup|].
  destruct (nearest_speed_first_nearest (tel d) (nth i pts origin))
    as (k & r & Hr & Hspeed & Hle & Hlt); [by apply Hpos|].
  exists k, r. rewrite Hspeed in Hup. by rewrite Hspeed.
Qed.

Lemma driver_iff_positive_speed all_drivers tel segs pts i :
  i < length segs ->
  exists drv v,
    entry_of (attribution all_drivers tel segs pts) i = Some (drv, v)
    /\ ((drv = None /\ v = 0%float)
        \/ (is_Some drv /\ PrimFloat.ltb 0 v = true)).
Proof.
  intros Hi. rewrite attribution_entry by done.
  assert (settled (None, n_zero)) as H0 by (by left).
  pose proof (entry_fold_settled tel (nth i pts origin) all_drivers _ H0) as Hq.
  destruct (fold_left _ all_drivers (None, n_zero)) as [drv v].
  by exists drv, v.
Qed.

(** X10: A segment has a driver exactly when its speed is above 0: either no
    driver and the speed 0, or a driver and a positive speed. *)
Theorem segment_has_driver_iff_speed_positive all_drivers tel segs pts i :
  i < length segs ->
  exists drv v,
    entry_of (attribution all_drivers tel segs pts) i = Some (drv, v)
    /\ ((drv = None /\ v = 0%float)
        \/ (is_Some drv /\ PrimFloat.ltb 0 v = true)).
Proof. intros. eapply driver_iff_positive_speed; eauto. Qed.

(** X11: Processing again drivers that have been processed changes nothing. *)
Theorem attribution_reprocessing all_drivers again tel segs pts :
  (forall d, d ∈ again -> d ∈ all_drivers) ->
  attribution (all_drivers ++ again) tel segs pts
  = attribution all_drivers tel segs pts.
Proof.
  intros Hsub.
  destruct (attribution_lengths (all_drivers ++ again) tel segs pts) as [Hd1 Hv1].
  destruct (attribution_lengths all_drivers tel segs pts) as [Hd2 Hv2].
  apply (attr_state_eq _ _ (length segs)); try done.
  intros i Hi. rewrite !attribution_entry by done. f_equal.
  rewrite fold_left_app. apply entry_fold_no_update.
  intros d Hd Ht. apply entry_fold_upper; [by apply Hsub|done].
Qed.

(** *** The scale of the heatmap *)

Lemma py_max_float (x : float) rest :
  py_max (x :: rest) = Some (fold_left fmax rest x).
Proof. reflexivity. Qed.

Lemma py_min_float (x : float) rest :
  py_min (x :: rest) = Some (fold_left fmin rest x).
Proof. reflexivity. Qed.

Lemma positive_filter_spec (speeds : list float) v :
  v ∈ List.filter (fun x => n_gtb x n_zero) speeds
  <-> v ∈ speeds /\ PrimFloat.ltb 0 v = true.
Proof. by rewrite !list_elem_of_In, filter_In. Qed.

Lemma heatmap_bounds_spec (speeds : list float) :
  Forall (fun v => is_nan v = false) speeds ->
  (heatmap_bounds speeds = None
   <-> Forall (fun v => PrimFloat.ltb 0 v = false) speeds)
  /\ forall min_speed max_speed,
       heatmap_bounds speeds = Some (min_speed, max_speed) ->
       min_speed ∈ speeds /\ max_speed ∈ speeds
       /\ PrimFloat.ltb 0 min_speed = true
       /\ forall v, v ∈ speeds ->
            PrimFloat.leb v max_speed = true
            /\ (PrimFloat.ltb 0 v = true -> PrimFloat.leb min_speed v = true).
Proof.
  intros Hnan.
  pose proof (positive_filter_spec speeds) as Hpos.
  unfold heatmap_bounds.
  destruct speeds as [|x rest].
  { split; [done|]. intros mn mx Hb. done. }
  rewrite py_max_float.
  apply Forall_cons in Hnan as [Hx Hrest].
  destruct (fold_fmax_spec rest x Hx Hrest) as (Hmax_in & Hmax_x & Hmax_all).
  destruct (List.filter (fun v => n_gtb v n_zero) (x :: rest))
    as [|y ys] eqn:Hfilter.
  - split.
    + split; [intros _|done].
      apply Forall_forall. intros v Hv.
      destruct (PrimFloat.ltb 0 v) eqn:Hlt; [|done].
      assert (v ∈ []) as Hin by (by apply Hpos). by apply elem_of_nil in Hin.
    + intros mn mx Hb. done.
  - rewrite py_min_float.
    assert (Forall (fun v => is_nan v = false) (y :: ys)) as Hnn.
    { apply Forall_forall. intros v Hv. apply Hpos in Hv as [_ Hv].
      by apply fltb_not_nan in Hv as [_ ?]. }
    apply Forall_cons in Hnn as [Hy Hys].
    destruct (fold_fmin_spec ys y Hy Hys) as (Hmin_in & Hmin_y & Hmin_all).
    apply Hpos in Hmin_in as [Hmin_in Hmin_pos].
    split.
    + split; [done|]. intros Hall.
      assert (y ∈ y :: ys) as Hyin by apply list_elem_of_here.
      apply Hpos in Hyin as [Hyin Hypos].
      rewrite (proj1 (Forall_forall _ _) Hall y Hyin) in Hypos. done.
    + intros mn mx [= <- <-]. split; [done|]. split; [done|]. split; [done|].
      intros v Hv. split.
      * apply elem_of_cons in Hv as [->|Hv]; [done|by apply Hmax_all].
      * intros Hvpos.
        assert (v ∈ y :: ys) as [->|Hvy]%elem_of_cons
          by (by apply Hpos); [done|by apply Hmin_all].
Qed.

(** X14: Lines 243-244 on speeds none of which is nan: the scale cannot be
    computed (ValueError) exactly when no speed is above 0; otherwise its
    lower end is the least positive speed and its upper end the greatest
    speed. *)
Theorem heatmap_scale_bounds (speeds : list float) :
  Forall (fun v => is_nan v = false) speeds ->
  (heatmap_bounds speeds = None
   <-> Forall (fun v => PrimFloat.ltb 0 v = false) speeds)
  /\ forall min_speed max_speed,
       heatmap_bounds speeds = Some (min_speed, max_speed) ->
       min_speed ∈ speeds /\ max_speed ∈ speeds
       /\ PrimFloat.ltb 0 min_speed = true
       /\ forall v, v ∈ speeds ->
            PrimFloat.leb v max_speed = true
            /\ (PrimFloat.ltb 0 v = true -> PrimFloat.leb min_speed v = true).
Proof. intros. eapply heatmap_bounds_spec; eauto. Qed.

End AttrFloat.

Lemma SFcompare_Eq_positive a b :
  SFltb (S754_zero false) a = true ->
  SFcompare a b = Some Eq -> a = b.
Proof.
  unfold SFltb.
  destruct a as [sa|sa| |sa ma ea], b as [sb|sb| |sb mb eb]; cbn;
    try destruct sa; try destruct sb; try done.
  change (Pos.compare_cont Eq) with Pos.compare. intros _.
  destruct (Z.compare_spec ea eb); try done.
  destruct (Pos.compare_spec ma mb); try done. by subst.
Qed.

Lemma Prim2SF_zero : Prim2SF 0%float = S754_zero false.
Proof. reflexivity. Qed.

(** Two positive floats neither of which is below the other are equal. *)
Lemma positive_incomparable_eq (a b : float) :
  PrimFloat.ltb 0 a = true ->
  PrimFloat.ltb a b = false ->
  PrimFloat.ltb b a = false ->
  is_nan b = false ->
  a = b.
Proof.
  rewrite !FloatAxioms.ltb_spec, Prim2SF_zero, is_nan_false.
  intros Hpos Hab Hba Hb.
  apply Prim2SF_inj. apply SFcompare_Eq_positive; [done|].
  unfold SFltb in Hab, Hba. rewrite (SFcompare_antisym (Prim2SF a)) in Hba.
  destruct (SFcompare (Prim2SF a) (Prim2SF b)) as [[]|] eqn:Hc; try done.
  apply SFcompare_None in Hc as [Ha|Hb']; [|done].
  apply SFltb_not_nan in Hpos as [_ Hpos]. done.
Qed.

Section AttrFloatMore.
Implicit Types (e : option string * float)
  (pts : list (@point float)) (segs : list (list (@point float)))
  (tel : string -> list (@sample float)).

Lemma settled_not_nan e : settled e -> is_nan e.2 = false.
Proof.
  intros [[_ ->]|[_ Hpos]]; [done|]. by apply fltb_not_nan in Hpos as [_ ?].
Qed.

Lemma entry_fold_attained tel mid ds :
  (fold_left (entry_update tel mid) ds (None, n_zero)).2 = 0%float
  \/ exists d, d ∈ ds /\ tel d <> []
       /\ (fold_left (entry_update tel mid) ds (None, n_zero)).2
          = nearest_speed (tel d) mid.
Proof.
  destruct (entry_fold_provenance tel mid ds (None, n_zero))
    as [->|(d & Hd & Ht & ->)]; [by left|].
  right. by exists d.
Qed.

Lemma entry_fold_speed_perm tel mid ds ds' :
  ds ≡ₚ ds' ->
  (fold_left (entry_update tel mid) ds (None, n_zero)).2
  = (fold_left (entry_update tel mid) ds' (None, n_zero)).2.
Proof.
  intros Hperm.
  assert (settled (None, n_zero)) as H0 by (by left).
  pose proof (entry_fold_settled tel mid ds _ H0) as Hs1.
  pose proof (entry_fold_settled tel mid ds' _ H0) as Hs2.
  pose proof (entry_fold_upper tel mid ds (None, n_zero)) as Hup1.
  pose proof (entry_fold_upper tel mid ds' (None, n_zero)) as Hup2.
  destruct (entry_fold_attained tel mid ds) as [Hz1|(d1 & Hd1 & Ht1 & Ha1)];
    destruct (entry_fold_attained tel mid ds') as [Hz2|(d2 & Hd2 & Ht2 & Ha2)].
  - by rewrite Hz1, Hz2.
  - (* the second order records d2, which the first order has seen *)
    specialize (Hup1 d2). rewrite <- Ha2, Hz1 in Hup1.
    destruct Hs2 as [[_ ->]|[_ Hpos]]; [done|].
    rewrite Hup1 in Hpos; [done| by rewrite Hperm |done].
  - specialize (Hup2 d1). rewrite <- Ha1, Hz2 in Hup2.
    destruct Hs1 as [[_ ->]|[_ Hpos]]; [done|].
    rewrite Hup2 in Hpos; [done| by rewrite <- Hperm |done].
  - specialize (Hup1 d2). rewrite <- Ha2 in Hup1.
    specialize (Hup2 d1). rewrite <- Ha1 in Hup2.
    destruct Hs1 as [[_ Hz1]|[_ Hpos1]].
    + destruct Hs2 as [[_ Hz2]|[_ Hpos2]]; [by rewrite Hz1, Hz2|].
      rewrite Hz1 in Hup1. rewrite Hup1 in Hpos2; [done|by rewrite Hperm|done].
    + apply positive_incomparable_eq; [done| | |by apply settled_not_nan].
      * apply Hup1; [by rewrite Hperm|done].
      * apply Hup2; [by rewrite <- Hperm|done].
Qed.

(** X12: The fastest speed of every segment does not depend on the order in
    which the drivers are processed (the driver recorded with it can, when
    drivers tie). *)
Theorem fastest_speed_order_independent all_drivers all_drivers' tel segs pts :
  all_drivers ≡ₚ all_drivers' ->
  segment_fastest_speed (attribution all_drivers tel segs pts)
  = segment_fastest_speed (attribution all_drivers' tel segs pts).
Proof.
  intros Hperm. apply list_eq. intros i.
  destruct (attribution_lengths all_drivers tel segs pts) as [Hd1 Hv1].
  destruct (attribution_lengths all_drivers' tel segs pts) as [Hd2 Hv2].
  destruct (decide (i < length segs)) as [Hi|Hi].
  - pose proof (attribution_entry all_drivers tel segs pts i Hi) as He1.
    pose proof (attribution_entry all_drivers' tel segs pts i Hi) as He2.
    apply entry_of_Some in He1 as [_ ->]. apply entry_of_Some in He2 as [_ ->].
    f_equal. by apply entry_fold_speed_perm.
  - rewrite !lookup_ge_None_2 by lia. done.
Qed.

(** X15: The scale of the heatmap cannot be computed (lines 243-244 raise
    ValueError, which line 307 catches) exactly when no segment has a
    driver. *)
Theorem heatmap_needs_an_attributed_segment all_drivers tel segs pts :
  heatmap_bounds (segment_fastest_speed (attribution all_drivers tel segs pts))
  = None
  <-> forall i, i < length segs ->
        segment_fastest_driver (attribution all_drivers tel segs pts) !! i
        = Some None.
Proof.
  set (st := attribution all_drivers tel segs pts).
  destruct (attribution_lengths all_drivers tel segs pts) as [Hd Hv].
  fold st in Hd, Hv.
  assert (forall i v, segment_fastest_speed st !! i = Some v ->
            exists drv, segment_fastest_driver st !! i = Some drv
                        /\ settled (drv, v)) as Hsettled.
  { intros i v Hv'. pose proof (lookup_lt_Some _ _ _ Hv') as Hi.
    rewrite Hv in Hi.
    destruct (driver_iff_positive_speed all_drivers tel segs pts i Hi)
      as (drv & v' & Hent & Hq).
    apply entry_of_Some in Hent as [Hdrv Hsp]. cbn in Hdrv, Hsp.
    fold st in Hdrv, Hsp. rewrite Hv' in Hsp. injection Hsp as ->.
    by exists drv. }
  assert (Forall (fun v => is_nan v = false) (segment_fastest_speed st)) as Hnn.
  { apply Forall_lookup. intros i v Hv'.
    destruct (Hsettled i v Hv') as (drv & _ & Hq).
    by apply (settled_not_nan (drv, v)). }
  destruct (heatmap_bounds_spec _ Hnn) as [Hnone _]. rewrite Hnone.
  rewrite Forall_lookup. split.
  - intros Hall i Hi.
    destruct (lookup_lt_is_Some_2 (segment_fastest_speed st) i) as [v Hv'];
      [lia|].
    destruct (Hsettled i v Hv') as (drv & Hdrv & [[Hn _]|[_ Hpos]]).
    + cbn in Hn. by rewrite Hdrv, Hn.
    + cbn in Hpos. rewrite (Hall i v Hv') in Hpos. done.
  - intros Hall i v Hv'. pose proof (lookup_lt_Some _ _ _ Hv') as Hi.
    rewrite Hv in Hi.
    destruct (Hsettled i v Hv') as (drv & Hdrv & [[_ Hz]|[[d Hsome] _]]).
    + cbn in Hz. by rewrite Hz.
    + cbn in Hsome. rewrite (Hall i Hi) in Hdrv. congruence.
Qed.

End AttrFloatMore.

(** ** telemetry_utils.py and scripts/slipstream_analysis.py *)

(** *** The section between two corners *)

Lemma section_cases telemetry a b corners :
  (exists sd ed, corner_distance corners a = Some sd
     /\ corner_distance corners b = Some ed
     /\ get_straight_section_telemetry telemetry a b corners
        = List.filter (fun r => PrimFloat.leb sd (row_Distance r)
                                && PrimFloat.leb (row_Distance r) ed)
                      telemetry)
  \/ ((corner_distance corners a = None \/ corner_distance corners b = None)
      /\ get_straight_section_telemetry telemetry a b corners = []).
Proof.
  unfold get_straight_section_telemetry, corner_distance.
  destruct (filter (fun c => Number c = a) corners) as [|c1 ?].
  - right. split; [by left|done].
  - destruct (filter (fun c => Number c = b) corners) as [|c2 ?].
    + right. split; [by right|done].
    + left. by exists (corner_Distance c1), (corner_Distance c2).
Qed.

Lemma filter_sublist {A} (f : A -> bool) (l : list A) :
  sublist (List.filter f l) l.
Proof.
  induction l as [|x l IH]; [constructor|]. cbn.
  destruct (f x); by constructor.
Qed.

Lemma section_between_corners telemetry a b corners :
  sublist (get_straight_section_telemetry telemetry a b corners) telemetry
  /\ forall r,
       r ∈ get_straight_section_telemetry telemetry a b corners
       <-> r ∈ telemetry
           /\ exists sd ed, corner_distance corners a = Some sd
                /\ corner_distance corners b = Some ed
                /\ in_section sd ed r.
Proof.
  destruct (section_cases telemetry a b corners)
    as [(sd & ed & Ha & Hb & ->)|([Hnone|Hnone] & ->)].
  - split; [apply filter_sublist|]. intros r.
    rewrite !list_elem_of_In, filter_In, andb_true_iff. split.
    + intros [Hin Hr]. split; [done|]. by exists sd, ed.
    + intros [Hin (sd' & ed' & Ha' & Hb' & Hr)].
      rewrite Ha in Ha'. rewrite Hb in Hb'.
      injection Ha' as <-. injection Hb' as <-. done.
  - split; [apply sublist_nil_l|]. intros r. split.
    + by intros ?%elem_of_nil.
    + intros [_ (sd & ed & Ha & _)]. by rewrite Hnone in Ha.
  - split; [apply sublist_nil_l|]. intros r. split.
    + by intros ?%elem_of_nil.
    + intros [_ (sd & ed & _ & Hb & _)]. by rewrite Hnone in Hb.
Qed.

(** X16: The section is a part of the telemetry, in the same order; its rows
    are exactly the rows whose distance lies between the distances of the two
    corners (the first row of each name), and there is none when a corner is
    missing. *)
Theorem section_rows_between_corners telemetry a b corners :
  sublist (get_straight_section_telemetry telemetry a b corners) telemetry
  /\ forall r,
       r ∈ get_straight_section_telemetry telemetry a b corners
       <-> r ∈ telemetry
           /\ exists sd ed, corner_distance corners a = Some sd
                /\ corner_distance corners b = Some ed
                /\ in_section sd ed r.
Proof. intros. eapply section_between_corners; eauto. Qed.

(** X17: When the end corner lies before the start corner the section is
    empty. *)
Theorem section_of_reversed_corners_is_empty telemetry a b corners sd ed :
  corner_distance corners a = Some sd ->
  corner_distance corners b = Some ed ->
  PrimFloat.ltb ed sd = true ->
  get_straight_section_telemetry telemetry a b corners = [].
Proof.
  intros Ha Hb Hrev.
  destruct (get_straight_section_telemetry telemetry a b corners)
    as [|r rest] eqn:Hsec; [done|].
  assert (r ∈ get_straight_section_telemetry telemetry a b corners) as Hr
    by (rewrite Hsec; apply list_elem_of_here).
  apply (section_between_corners telemetry a b corners) in Hr
    as [_ (sd' & ed' & Ha' & Hb' & Hlo & Hhi)].
  rewrite Ha in Ha'. rewrite Hb in Hb'.
  injection Ha' as <-. injection Hb' as <-.
  pose proof (fleb_trans _ _ _ Hlo Hhi) as Hle.
  apply fleb_ltb_false in Hle. congruence.
Qed.

Lemma filter_twice {A} (f : A -> bool) (l : list A) :
  List.filter f (List.filter f l) = List.filter f l.
Proof.
  induction l as [|x l IH]; [done|]. cbn.
  destruct (f x) eqn:Hx; [|done]. cbn. rewrite Hx. by f_equal.
Qed.

(** X18: Taking the section of a section gives the section. *)
Theorem section_idempotent telemetry a b corners :
  get_straight_section_telemetry
    (get_straight_section_telemetry telemetry a b corners) a b corners
  = get_straight_section_telemetry telemetry a b corners.
Proof.
  destruct (section_cases telemetry a b corners)
    as [(sd & ed & Ha & Hb & Hsec)|(_ & Hsec)].
  - destruct (section_cases
                (get_straight_section_telemetry telemetry a b corners)
                a b corners) as [(sd' & ed' & Ha' & Hb' & ->)|([Hn|Hn] & _)].
    + rewrite Ha in Ha'. rewrite Hb in Hb'.
      injection Ha' as <-. injection Hb' as <-. rewrite Hsec.
      apply filter_twice.
    + by rewrite Ha in Hn.
    + by rewrite Hb in Hn.
  - rewrite Hsec. unfold get_straight_section_telemetry.
    by destruct (filter (fun c => Number c = a) corners),
                (filter (fun c => Number c = b) corners).
Qed.

(** *** [analyze_slipstream] at the edges *)

Lemma is_nan_nan : is_nan nan = true.
Proof. reflexivity. Qed.

Lemma series_min_all_missing col : drop_nan col = [] -> series_min col = nan.
Proof. intros Hcol. unfold series_min. by rewrite Hcol. Qed.

Lemma series_max_all_missing col : drop_nan col = [] -> series_max col = nan.
Proof. intros Hcol. unfold series_max. by rewrite Hcol. Qed.

Lemma no_value_no_slipstream (telemetry : telemetry_table)
    (min_distance min_speed : float) :
  drop_nan (col_DistanceToCarAhead telemetry) = []
  \/ drop_nan (col_Speed telemetry) = [] ->
  (analyze_slipstream telemetry min_distance min_speed).1.1 = false
  /\ (drop_nan (col_DistanceToCarAhead telemetry) = [] ->
      (analyze_slipstream telemetry min_distance min_speed).1.2 = nan)
  /\ (drop_nan (col_Speed telemetry) = [] ->
      (analyze_slipstream telemetry min_distance min_speed).2 = nan).
Proof.
  intros Hcol. unfold analyze_slipstream. cbn [fst snd].
  split; [|split; [apply series_min_all_missing|apply series_max_all_missing]].
  destruct Hcol as [Hd|Hs].
  - rewrite (series_min_all_missing _ Hd).
    by rewrite (fltb_nan_l nan is_nan_nan).
  - rewrite (series_max_all_missing _ Hs).
    rewrite (fltb_nan_r nan is_nan_nan). apply andb_false_r.
Qed.

(** X19: On a table one of whose two columns holds no value (an empty table,
    or a column of nan only) no slipstream is detected, whatever the
    thresholds, and the corresponding result is nan. *)
Theorem slipstream_needs_values (telemetry : telemetry_table)
    (min_distance min_speed : float) :
  drop_nan (col_DistanceToCarAhead telemetry) = []
  \/ drop_nan (col_Speed telemetry) = [] ->
  (analyze_slipstream telemetry min_distance min_speed).1.1 = false
  /\ (drop_nan (col_DistanceToCarAhead telemetry) = [] ->
      (analyze_slipstream telemetry min_distance min_speed).1.2 = nan)
  /\ (drop_nan (col_Speed telemetry) = [] ->
      (analyze_slipstream telemetry min_distance min_speed).2 = nan).
Proof. intros. eapply no_value_no_slipstream; eauto. Qed.

(** X20: A slipstream that is detected stays detected when the distance
    threshold is raised and the speed threshold lowered. *)
Theorem slipstream_monotone_in_thresholds (telemetry : telemetry_table)
    (min_distance min_speed min_distance' min_speed' : float) :
  (analyze_slipstream telemetry min_distance min_speed).1.1 = true ->
  PrimFloat.leb min_distance min_distance' = true ->
  PrimFloat.leb min_speed' min_speed = true ->
  (analyze_slipstream telemetry min_distance' min_speed').1.1 = true.
Proof.
  unfold analyze_slipstream. cbn [fst snd].
  intros [Hd Hs]%andb_true_iff Hmd Hms. apply andb_true_iff. split.
  - by eapply fltb_leb_trans.
  - by eapply fleb_ltb_trans.
Qed.

Lemma detected_has_values (telemetry : telemetry_table) md ms :
  (analyze_slipstream telemetry md ms).1.1 = true ->
  drop_nan (col_DistanceToCarAhead telemetry) <> []
  /\ drop_nan (col_Speed telemetry) <> [].
Proof.
  intros Hhas. split; intros Hnil.
  - destruct (no_value_no_slipstream telemetry md ms) as [Hf _]; [by left|].
    congruence.
  - destruct (no_value_no_slipstream telemetry md ms) as [Hf _]; [by right|].
    congruence.
Qed.

(** A slipstream detected on a part of a table is detected on the whole
    table. *)
Lemma slipstream_on_part_implies_whole (part whole : telemetry_table)
    (min_distance min_speed : float) :
  (forall x, x ∈ col_DistanceToCarAhead part ->
             x ∈ col_DistanceToCarAhead whole) ->
  (forall x, x ∈ col_Speed part -> x ∈ col_Speed whole) ->
  (analyze_slipstream part min_distance min_speed).1.1 = true ->
  (analyze_slipstream whole min_distance min_speed).1.1 = true.
Proof.
  intros Hdist Hspeed Hhas.
  destruct (detected_has_values part _ _ Hhas) as [Hd Hs].
  unfold analyze_slipstream in Hhas |- *. cbn [fst snd] in Hhas |- *.
  apply andb_true_iff in Hhas as [Hmin Hmax].
  destruct (series_min_spec _ Hd) as (Hmin_in & Hmin_nn & _).
  destruct (series_max_spec _ Hs) as (Hmax_in & Hmax_nn & _).
  assert (drop_nan (col_DistanceToCarAhead whole) <> []) as Hd'.
  { intros Hnil.
    assert (series_min (col_DistanceToCarAhead part) ∈ @nil float) as Hin
      by (rewrite <- Hnil; apply drop_nan_spec; split; [by apply Hdist|done]).
    by apply elem_of_nil in Hin. }
  assert (drop_nan (col_Speed whole) <> []) as Hs'.
  { intros Hnil.
    assert (series_max (col_Speed part) ∈ @nil float) as Hin
      by (rewrite <- Hnil; apply drop_nan_spec; split; [by apply Hspeed|done]).
    by apply elem_of_nil in Hin. }
  destruct (series_min_spec _ Hd') as (_ & _ & Hlow).
  destruct (series_max_spec _ Hs') as (_ & _ & Hhigh).
  apply andb_true_iff. split.
  - eapply fleb_ltb_trans; [|exact Hmin]. apply Hlow; [by apply Hdist|done].
  - eapply fltb_leb_trans; [exact Hmax|]. apply Hhigh; [by apply Hspeed|done].
Qed.

(** *** The report on a driver *)

Lemma table_of_section_part telemetry a b corners :
  (forall x,
     x ∈ col_DistanceToCarAhead
           (table_of_rows (get_straight_section_telemetry telemetry a b corners))
     -> x ∈ col_DistanceToCarAhead (table_of_rows telemetry))
  /\ (forall x,
     x ∈ col_Speed
           (table_of_rows (get_straight_section_telemetry telemetry a b corners))
     -> x ∈ col_Speed (table_of_rows telemetry)).
Proof.
  destruct (section_between_corners telemetry a b corners) as [_ Hsec].
  split; intros x; cbn; rewrite !list_elem_of_fmap;
    intros (r & -> & Hr); exists r; (split; [done|]); by apply Hsec in Hr as [? _].
Qed.

(** X21: A slipstream detected between two corners is detected on the whole
    lap. *)
Theorem slipstream_in_section_implies_lap telemetry a b corners
    (min_distance min_speed : float) :
  (analyze_slipstream
     (table_of_rows (get_straight_section_telemetry telemetry a b corners))
     min_distance min_speed).1.1 = true ->
  (analyze_slipstream (table_of_rows telemetry) min_distance min_speed).1.1
  = true.
Proof.
  destruct (table_of_section_part telemetry a b corners) as [Hd Hs].
  by apply slipstream_on_part_implies_whole.
Qed.

(** X22: What is reported for a driver.  The report is "no telemetry"
    exactly when the lap has no sample, and "no data between the corners"
    exactly when the lap has samples and none of them lies between the two
    corners (or a corner is missing).  In every other case, and only then,
    the result of [analyze_slipstream] on the section with the thresholds 50
    and 300 is reported: a minimum distance and a maximum speed which, unless
    nan, are those of samples of the lap between the two corners, and a flag
    which says that the minimum is below 50 and the maximum above 300. *)
Theorem driver_report_spec telemetry corners a b :
  (analyze_slipstream_for_driver telemetry corners a b = NoTelemetry
   <-> telemetry = [])
  /\ (analyze_slipstream_for_driver telemetry corners a b = NoSection
      <-> telemetry <> []
          /\ get_straight_section_telemetry telemetry a b corners = [])
  /\ forall has_slipstream min_dist max_speed,
       analyze_slipstream_for_driver telemetry corners a b
       = Report has_slipstream min_dist max_speed ->
       telemetry <> []
       /\ get_straight_section_telemetry telemetry a b corners <> []
       /\ analyze_slipstream
            (table_of_rows (get_straight_section_telemetry telemetry a b corners))
            50 300
          = (has_slipstream, min_dist, max_speed)
       /\ (has_slipstream = true <->
             PrimFloat.ltb min_dist 50 = true
             /\ PrimFloat.ltb 300 max_speed = true)
       /\ (is_nan min_dist = false ->
           exists r sd ed, r ∈ telemetry
             /\ corner_distance corners a = Some sd
             /\ corner_distance corners b = Some ed
             /\ in_section sd ed r
             /\ row_DistanceToCarAhead r = min_dist)
       /\ (is_nan max_speed = false ->
           exists r sd ed, r ∈ telemetry
             /\ corner_distance corners a = Some sd
             /\ corner_distance corners b = Some ed
             /\ in_section sd ed r
             /\ row_Speed r = max_speed).
Proof.
  unfold analyze_slipstream_for_driver.
  destruct telemetry as [|r0 t].
  { split; [done|]. split; [|done]. split; [done|]. by intros [? _]. }
  set (telemetry := r0 :: t).
  destruct (section_between_corners telemetry a b corners) as [_ Hsec].
  destruct (get_straight_section_telemetry telemetry a b corners)
    as [|s0 section'] eqn:Hsection.
  { split; [done|]. split; [|done]. done. }
  set (section := s0 :: section') in *.
  split; [done|]. split; [split; [done|by intros [_ ?]]|].
  intros has_slipstream min_dist max_speed.
  unfold analyze_slipstream, default_min_distance, default_min_speed.
  cbn [table_of_rows col_DistanceToCarAhead col_Speed].
  intros [= <- <- <-].
  split; [done|]. split; [done|]. split; [done|].
  split; [apply andb_true_iff|].
  change (row_DistanceToCarAhead s0 :: map row_DistanceToCarAhead section')
    with (map row_DistanceToCarAhead section).
  change (row_Speed s0 :: map row_Speed section')
    with (map row_Speed section).
  split.
  - intros Hnn.
    assert (drop_nan (map row_DistanceToCarAhead section) <> []) as Hne.
    { intros Hnil. rewrite (series_min_all_missing _ Hnil) in Hnn. done. }
    destruct (series_min_spec _ Hne) as (Hin & _ & _).
    apply list_elem_of_fmap in Hin as (r & Hr & Hrin).
    apply Hsec in Hrin as [Hrt (sd & ed & Ha & Hb & Hrange)].
    by exists r, sd, ed.
  - intros Hnn.
    assert (drop_nan (map row_Speed section) <> []) as Hne.
    { intros Hnil. rewrite (series_max_all_missing _ Hnil) in Hnn. done. }
    destruct (series_max_spec _ Hne) as (Hin & _ & _).
    apply list_elem_of_fmap in Hin as (r & Hr & Hrin).
    apply Hsec in Hrin as [Hrt (sd & ed & Ha & Hb & Hrange)].
    by exists r, sd, ed.
Qed.

(** ** driver_utils.py *)

(** X23: When a row has the code, the dict is built from the first such row. *)
Theorem get_driver_info_first_match (s : session) (driver_code : string)
    pre r post :
  results s = pre ++ r :: post ->
  Abbreviation r = driver_code ->
  (forall r', r' ∈ pre -> Abbreviation r' <> driver_code) ->
  get_driver_info s driver_code
  = <["name" := FirstName r +:+ " " +:+ LastName r]>
      (<["number" := DriverNumber r]> (<["team" := TeamName r]> ∅)).
Proof.
  intros Hres Hr Hpre. unfold get_driver_info. rewrite Hres, filter_app.
  rewrite filter_no_match by done.
  by rewrite filter_cons_True.
Qed.

(** ** The extra properties on concrete inputs *)

Lemma track_length_positive (track : list (@point R)) :
  last_points_differ track -> (0 < track_length track)%R.
Proof.
  destruct track as [|p0 rest]; [done|]. intros Hap.
  rewrite track_length_path_sum.
  pose proof (path_sum_ge_last_step rest 0%R p0) as Hge.
  pose proof (last_step_pos rest p0 Hap) as Hpos.
  cbn in *. lra.
Qed.

Lemma segments_cover_track_witness :
  2 <= length example_track
  /\ exists first_seg last_seg,
       head (segments (seg_loop example_track 20%float)) = Some first_seg
       /\ last (segments (seg_loop example_track 20%float)) = Some last_seg
       /\ head first_seg = head example_track
       /\ last last_seg = last example_track.
Proof.
  assert (2 <= length example_track) as Hlen by (cbn; lia).
  split; [exact Hlen|].
  exact (@segments_cover_track float float_ops example_track 20%float Hlen).
Defined.

Lemma segments_are_greedy_cuts_witness :
  segments (seg_loop example_track 20%float) !! 0
  = Some [fpoint 0 0; fpoint 10 0; fpoint 20 0]
  /\ (1 < length (segments (seg_loop example_track 20%float)) ->
      n_geb (poly_length [fpoint 0 0; fpoint 10 0; fpoint 20 0]) 20%float = true)
  /\ forall k, 2 <= k < length [fpoint 0 0; fpoint 10 0; fpoint 20 0] ->
       n_geb (poly_length (take k [fpoint 0 0; fpoint 10 0; fpoint 20 0]))
             20%float = false.
Proof.
  assert (segments (seg_loop example_track 20%float) !! 0
          = Some [fpoint 0 0; fpoint 10 0; fpoint 20 0]) as Hs
    by (vm_compute; reflexivity).
  split; [exact Hs|].
  exact (@segments_are_greedy_cuts float float_ops example_track 20%float 0
           [fpoint 0 0; fpoint 10 0; fpoint 20 0] Hs).
Defined.

Lemma exact_count_at_most_one_over_witness :
  2 <= length real_track /\ (0 < 2)%Z /\ (0 < track_length real_track)%R
  /\ exists r, segmentation real_track 2 = Ok r
               /\ (Z.of_nat (length (segments r)) <= 2 + 1)%Z.
Proof.
  assert (2 <= length real_track) as Hlen by (cbn; lia).
  assert (0 < 2)%Z as HN by lia.
  assert (0 < track_length real_track)%R as HL.
  { apply track_length_positive. cbn. intros [= Hx]. lra. }
  split; [exact Hlen|]. split; [exact HN|]. split; [exact HL|].
  exact (exact_count_at_most_one_over real_track 2%Z Hlen HN HL).
Defined.

Lemma recorded_entry_provenance_witness :
  1 < length example_segments
  /\ (forall d j, d ∈ ["D"; "A"] -> patchy_telemetry d <> [] ->
        j < length example_segments ->
        has_position (patchy_telemetry d) (nth j example_midpoints origin)
        = true)
  /\ entry_of (attribution ["D"; "A"] patchy_telemetry
                 example_segments example_midpoints) 1
     = Some (Some "D", 100%float)
  /\ (entry_of (attribution ["D"; "A"] patchy_telemetry
                  example_segments example_midpoints) 1
      = Some (None, 0%float)
      \/ exists d k r,
           d ∈ ["D"; "A"] /\ patchy_telemetry d !! k = Some r
           /\ entry_of (attribution ["D"; "A"] patchy_telemetry
                          example_segments example_midpoints) 1
              = Some (Some d, Speed r)
           /\ nearest_speed (patchy_telemetry d)
                (nth 1 example_midpoints origin) = Speed r
           /\ (forall k' r', patchy_telemetry d !! k' = Some r' ->
                 PrimFloat.leb
                   (fill_missing
                      (sample_distance r (nth 1 example_midpoints origin)))
                   (fill_missing
                      (sample_distance r' (nth 1 example_midpoints origin)))
                 = true)
           /\ (forall k' r', k' < k -> patchy_telemetry d !! k' = Some r' ->
                 PrimFloat.ltb
                   (fill_missing
                      (sample_distance r (nth 1 example_midpoints origin)))
                   (fill_missing
                      (sample_distance r' (nth 1 example_midpoints origin)))
                 = true)
           /\ (forall k' r', patchy_telemetry d !! k' = Some r' ->
                 PrimFloat.ltb
                   (sample_distance r' (nth 1 example_midpoints origin))
                   infinity = true ->
                 is_nan (sample_distance r (nth 1 example_midpoints origin))
                 = false)).
Proof.
  assert (1 < length example_segments) as Hi by (cbn; lia).
  assert (forall d j, d ∈ ["D"; "A"] -> patchy_telemetry d <> [] ->
            j < length example_segments ->
            has_position (patchy_telemetry d) (nth j example_midpoints origin)
            = true) as Hpos.
  { intros d j Hd _ Hj. cbn in Hj.
    assert (j = 0 \/ j = 1) as [-> | ->] by lia;
      repeat (apply elem_of_cons in Hd as [->|Hd]; [vm_compute; reflexivity|]);
      by apply elem_of_nil in Hd. }
  split; [exact Hi|]. split; [exact Hpos|].
  split; [vm_compute; reflexivity|].
  exact (recorded_entry_provenance ["D"; "A"] patchy_telemetry
           example_segments example_midpoints 1 Hi Hpos).
Defined.

Lemma recorded_speed_is_maximum_witness :
  0 < length example_segments
  /\ (forall d j, d ∈ ["D"; "C"; "A"] -> patchy_telemetry d <> [] ->
        j < length example_segments ->
        has_position (patchy_telemetry d) (nth j example_midpoints origin)
        = true)
  /\ exists drv v,
       entry_of (attribution ["D"; "C"; "A"] patchy_telemetry
                   example_segments example_midpoints) 0 = Some (drv, v)
       /\ forall d, d ∈ ["D"; "C"; "A"] -> patchy_telemetry d <> [] ->
            PrimFloat.ltb v (nearest_speed (patchy_telemetry d)
                               (nth 0 example_midpoints origin)) = false
            /\ exists k r,
                 patchy_telemetry d !! k = Some r
                 /\ nearest_speed (patchy_telemetry d)
                      (nth 0 example_midpoints origin) = Speed r
                 /\ (forall k' r', patchy_telemetry d !! k' = Some r' ->
                       PrimFloat.leb
                         (fill_missing
                            (sample_distance r
                               (nth 0 example_midpoints origin)))
                         (fill_missing
                            (sample_distance r'
                               (nth 0 example_midpoints origin)))
                       = true)
                 /\ (forall k' r', k' < k ->
                       patchy_telemetry d !! k' = Some r' ->
                       PrimFloat.ltb
                         (fill_missing
                            (sample_distance r
                               (nth 0 example_midpoints origin)))
                         (fill_missing
                            (sample_distance r'
                               (nth 0 example_midpoints origin)))
                       = true)
                 /\ PrimFloat.ltb v (Speed r) = false.
Proof.
  assert (0 < length example_segments) as Hi by (cbn; lia).
  assert (forall d j, d ∈ ["D"; "C"; "A"] -> patchy_telemetry d <> [] ->
            j < length example_segments ->
            has_position (patchy_telemetry d) (nth j example_midpoints origin)
            = true) as Hpos.
  { intros d j Hd _ Hj. cbn in Hj.
    assert (j = 0 \/ j = 1) as [-> | ->] by lia;
      repeat (apply elem_of_cons in Hd as [->|Hd]; [vm_compute; reflexivity|]);
      by apply elem_of_nil in Hd. }
  split; [exact Hi|]. split; [exact Hpos|].
  exact (recorded_speed_is_maximum ["D"; "C"; "A"] patchy_telemetry
           example_segments example_midpoints 0 Hi Hpos).
Defined.

Lemma segment_has_driver_iff_speed_positive_witness :
  0 < length example_segments
  /\ exists drv v,
       entry_of (attribution ["A"; "B"] example_telemetry
                   example_segments example_midpoints) 0 = Some (drv, v)
       /\ ((drv = None /\ v = 0%float)
           \/ (is_Some drv /\ PrimFloat.ltb 0 v = true)).
Proof.
  assert (0 < length example_segments) as Hi by (cbn; lia).
  split; [exact Hi|].
  exact (segment_has_driver_iff_speed_positive ["A"; "B"] example_telemetry
           example_segments example_midpoints 0 Hi).
Defined.

Lemma attribution_reprocessing_witness :
  attribution (["A"; "B"] ++ ["A"]) example_telemetry
              example_segments example_midpoints
  = attribution ["A"; "B"] example_telemetry
                example_segments example_midpoints.
Proof.
  apply (attribution_reprocessing ["A"; "B"] ["A"] example_telemetry
           example_segments example_midpoints).
  intros d Hd. apply elem_of_cons in Hd as [->|Hd].
  - apply list_elem_of_here.
  - by apply elem_of_nil in Hd.
Defined.

Lemma every_recorded_driver_has_a_colour_witness :
  0 < length example_segments
  /\ exists d colour,
       segment_fastest_driver
         (attribution_colors (fun _ => None) ["A"; "B"] example_telemetry
            example_segments example_midpoints).1 !! 0 = Some d
       /\ segment_color
            (attribution_colors (fun _ => None) ["A"; "B"] example_telemetry
               example_segments example_midpoints).2 d = Some colour.
Proof.
  assert (0 < length example_segments) as Hi by (cbn; lia).
  split; [exact Hi|].
  pose proof (@every_recorded_driver_has_a_colour float float_ops
                (fun _ => None) ["A"; "B"] example_telemetry
                example_segments example_midpoints) as Hc.
  destruct (attribution_colors (fun _ => None) ["A"; "B"] example_telemetry
              example_segments example_midpoints) as [st colours].
  exact (proj2 Hc 0 Hi).
Defined.

Lemma heatmap_scale_bounds_witness :
  Forall (fun v => is_nan v = false) [200%float; 250%float]
  /\ heatmap_bounds [200%float; 250%float] = Some (200%float, 250%float)
  /\ PrimFloat.ltb 0 200 = true
  /\ 200%float ∈ [200%float; 250%float]
  /\ 250%float ∈ [200%float; 250%float].
Proof.
  assert (Forall (fun v => is_nan v = false) [200%float; 250%float]) as Hnn
    by (repeat constructor).
  assert (heatmap_bounds [200%float; 250%float] = Some (200%float, 250%float))
    as Hb by (vm_compute; reflexivity).
  destruct (proj2 (heatmap_scale_bounds [200%float; 250%float] Hnn) _ _ Hb)
    as (Hmin & Hmax & Hpos & _).
  split; [exact Hnn|]. split; [exact Hb|]. split; [exact Hpos|].
  split; [exact Hmin | exact Hmax].
Defined.

Lemma heatmap_needs_an_attributed_segment_witness :
  heatmap_bounds (segment_fastest_speed
                    (attribution ["A"; "B"] idle_telemetry
                       example_segments example_midpoints)) = None.
Proof.
  apply (proj2 (heatmap_needs_an_attributed_segment ["A"; "B"] idle_telemetry
                  example_segments example_midpoints)).
  intros i Hi. cbn in Hi.
  destruct i as [|[|i]]; [vm_compute; reflexivity..|lia].
Defined.

Lemma fastest_speed_order_independent_witness :
  segment_fastest_speed (attribution ["A"; "B"] tied_telemetry
                           example_segments example_midpoints)
  = segment_fastest_speed (attribution ["B"; "A"] tied_telemetry
                             example_segments example_midpoints).
Proof.
  apply (fastest_speed_order_independent ["A"; "B"] ["B"; "A"]).
  apply perm_swap.
Defined.

Lemma section_of_reversed_corners_is_empty_witness :
  corner_distance test_corners "Turn 14" = Some 700%float
  /\ corner_distance test_corners "Turn 13" = Some 500%float
  /\ PrimFloat.ltb 500 700 = true
  /\ get_straight_section_telemetry lap_rows "Turn 14" "Turn 13" test_corners
     = [].
Proof.
  assert (corner_distance test_corners "Turn 14" = Some 700%float) as Ha
    by (vm_compute; reflexivity).
  assert (corner_distance test_corners "Turn 13" = Some 500%float) as Hb
    by (vm_compute; reflexivity).
  assert (PrimFloat.ltb 500 700 = true) as Hrev by (vm_compute; reflexivity).
  split; [exact Ha|]. split; [exact Hb|]. split; [exact Hrev|].
  exact (section_of_reversed_corners_is_empty lap_rows "Turn 14" "Turn 13"
           test_corners 700%float 500%float Ha Hb Hrev).
Defined.

Lemma slipstream_needs_values_witness :
  (analyze_slipstream (TelemetryTable [] []) 50 300).1.1 = false
  /\ (analyze_slipstream (TelemetryTable [] []) 50 300).1.2 = nan
  /\ (analyze_slipstream (TelemetryTable [] []) 50 300).2 = nan.
Proof.
  destruct (slipstream_needs_values (TelemetryTable [] []) 50%float 300%float
              (or_introl eq_refl)) as (Hflag & Hmin & Hmax).
  split; [exact Hflag|]. split; [exact (Hmin eq_refl) | exact (Hmax eq_refl)].
Defined.

Lemma slipstream_monotone_in_thresholds_witness :
  (analyze_slipstream slipstream_table 50 300).1.1 = true
  /\ PrimFloat.leb 50 60 = true
  /\ PrimFloat.leb 290 300 = true
  /\ (analyze_slipstream slipstream_table 60 290).1.1 = true.
Proof.
  assert ((analyze_slipstream slipstream_table 50 300).1.1 = true) as Hhas
    by (vm_compute; reflexivity).
  assert (PrimFloat.leb 50 60 = true) as Hd by (vm_compute; reflexivity).
  assert (PrimFloat.leb 290 300 = true) as Hs by (vm_compute; reflexivity).
  split; [exact Hhas|]. split; [exact Hd|]. split; [exact Hs|].
  exact (slipstream_monotone_in_thresholds slipstream_table
           50%float 300%float 60%float 290%float Hhas Hd Hs).
Defined.

Lemma slipstream_in_section_implies_lap_witness :
  (analyze_slipstream
     (table_of_rows
        (get_straight_section_telemetry lap_rows "Turn 13" "Turn 14"
                                        test_corners)) 50 300).1.1 = true
  /\ (analyze_slipstream (table_of_rows lap_rows) 50 300).1.1 = true.
Proof.
  assert ((analyze_slipstream
             (table_of_rows
                (get_straight_section_telemetry lap_rows "Turn 13" "Turn 14"
                                                test_corners)) 50 300).1.1
          = true) as Hsec by (vm_compute; reflexivity).
  split; [exact Hsec|].
  exact (slipstream_in_section_implies_lap lap_rows "Turn 13" "Turn 14"
           test_corners 50%float 300%float Hsec).
Defined.

Lemma driver_report_spec_witness :
  analyze_slipstream_for_driver lap_rows test_corners "Turn 13" "Turn 14"
  = Report true 30 330
  /\ analyze_slipstream_for_driver [] test_corners "Turn 13" "Turn 14"
     = NoTelemetry
  /\ analyze_slipstream_for_driver lap_rows test_corners "Turn 13" "Turn 99"
     = NoSection
  /\ exists r sd ed, r ∈ lap_rows
       /\ corner_distance test_corners "Turn 13" = Some sd
       /\ corner_distance test_corners "Turn 14" = Some ed
       /\ in_section sd ed r
       /\ row_DistanceToCarAhead r = 30%float.
Proof.
  assert (analyze_slipstream_for_driver lap_rows test_corners
            "Turn 13" "Turn 14" = Report true 30 330) as Hrep
    by (vm_compute; reflexivity).
  split; [exact Hrep|]. split; [|split].
  - apply (proj1 (driver_report_spec [] test_corners "Turn 13" "Turn 14")).
    reflexivity.
  - apply (proj1 (proj2 (driver_report_spec lap_rows test_corners
                           "Turn 13" "Turn 99"))).
    split; [discriminate | vm_compute; reflexivity].
  - destruct (proj2 (proj2 (driver_report_spec lap_rows test_corners
                              "Turn 13" "Turn 14")) true 30%float 330%float
                Hrep) as (_ & _ & _ & _ & Hmin & _).
    exact (Hmin eq_refl).
Defined.

Lemma get_driver_info_first_match_witness :
  get_driver_info mock_session "VER"
  = <["name" := "Max Verstappen"]>
      (<["number" := "1"]> (<["team" := "Red Bull Racing"]> ∅)).
Proof.
  apply (get_driver_info_first_match mock_session "VER"
           [ResultRow "HAM" "Lewis" "Hamilton" "44" "Ferrari"]
           (ResultRow "VER" "Max" "Verstappen" "1" "Red Bull Racing")
           [ResultRow "NOR" "Lando" "Norris" "4" "McLaren"]).
  - reflexivity.
  - reflexivity.
  - intros r Hr. apply elem_of_cons in Hr as [->|Hr]; [discriminate|].
    by apply elem_of_nil in Hr.
Defined.
